(** * spicetify-cli: theme settings resolution and watch mode

    A shallow embedding of [cmd.InitSetting], [cmd.getThemeFolder],
    [cmd.getSpicetifyFolder] (package [cmd], the settings file) and of
    [cmd.Watch], [cmd.WatchExtensions], [cmd.isValidForWatching] and
    [cmd.startDebugger] (src/cmd/watch.go).

    The package keeps its settings in package-level variables; they are the
    record [Globals] below and every function is a command that threads
    them, may stop the process ([os.Exit]) and leaves a trace of what it
    printed and which collaborators it called.  Everything the functions
    read from outside (configuration store, environment variables, file
    system, collaborators of package [utils]) is the record [World]. *)

From Stdlib Require Import String Ascii ZArith List Bool Lia.
From stdpp Require Import base gmap strings list.

Local Open Scope string_scope.
Local Open Scope list_scope.

(** ** Strings as Go uses them *)

Definition len (s : string) : nat := String.length s.

(** The double quote character, for the messages that contain it. *)
Definition dq : string := String (ascii_of_nat 34) EmptyString.

(** The byte occurs in the text. *)
Fixpoint occurs (c : ascii) (s : string) : bool :=
  match s with
  | EmptyString => false
  | String x rest => Ascii.eqb x c || occurs c rest
  end.

(** The text through the first occurrence of the byte, all of it when
    the byte does not occur. *)
Fixpoint through (c : ascii) (s : string) : string :=
  match s with
  | EmptyString => EmptyString
  | String x rest =>
      if Ascii.eqb x c then String x EmptyString else String x (through c rest)
  end.

(** ** The ini library, at the level of sections and keys

    [github.com/go-ini/ini] is an external library.  What the commands use
    of it is modelled here: a loaded file is the ordered list of its
    sections, [NewSection]/[NewKey] reuse an entry that already has the
    name, and the parser creates the default section before it reads
    anything.  A file loaded with [InsensitiveLoad] stores its key names
    in lower case and lowers the name asked of [GetSection]; it stores a
    section name in lower case too, unless the name is written exactly
    as [DefaultSection], which [NewSection] leaves as it is.  [lower]
    stands for Go's [strings.ToLower]. *)
Module ini.

Record Section := mkSection {
  Name : string;
  Keys : list (string * string)
}.

Record File := mkFile {
  Insensitive : bool;
  sectionList : list Section
}.

(** What the parser reads from a data source: the keys written before
    the first section header, then the blocks under their headers, in
    the order of the file and with the names as written (a header is
    never empty: the parser refuses the file). *)
Record Source := mkSource {
  preamble : list (string * string);
  blocks : list Section
}.

Definition DefaultSection : string := "DEFAULT".

Fixpoint NewKey (keys : list (string * string)) (name val : string)
  : list (string * string) :=
  match keys with
  | [] => [(name, val)]
  | (k, v) :: rest =>
      if String.eqb k name then (k, val) :: rest
      else (k, v) :: NewKey rest name val
  end.

Definition NewKeys (keys new : list (string * string)) : list (string * string) :=
  fold_left (fun acc kv => NewKey acc (fst kv) (snd kv)) new keys.

(** [NewSection] followed by the block's keys: an existing section of
    that name receives the keys, otherwise a section is appended. *)
Fixpoint NewSection (secs : list Section) (name : string)
         (keys : list (string * string)) : list Section :=
  match secs with
  | [] => [mkSection name (NewKeys [] keys)]
  | s :: rest =>
      if String.eqb (Name s) name
      then mkSection (Name s) (NewKeys (Keys s) keys) :: rest
      else s :: NewSection rest name keys
  end.

(** The name [NewKey] stores and [GetSection] looks for. *)
Definition norm (lower : string -> string) (insensitive : bool)
           (name : string) : string :=
  if insensitive then lower name else name.

(** The name [NewSection] stores: lowered under [Insensitive], except
    for [DefaultSection] as written. *)
Definition sectionName (lower : string -> string) (insensitive : bool)
           (name : string) : string :=
  if insensitive && negb (String.eqb name DefaultSection)
  then lower name else name.

Definition keyNames (lower : string -> string) (insensitive : bool)
           (keys : list (string * string)) : list (string * string) :=
  map (fun kv => (norm lower insensitive (fst kv), snd kv)) keys.

(** What the parser does at a header: [NewSection], then the keys of
    the block. *)
Definition addBlock (lower : string -> string) (insensitive : bool)
           (secs : list Section) (blk : Section) : list Section :=
  NewSection secs (sectionName lower insensitive (Name blk))
    (keyNames lower insensitive (Keys blk)).

(** The parser: the default section first, under [DefaultSection] or,
    when [Insensitive], its lower case; it receives the keys that
    precede the first header.  Every header then is a [NewSection]. *)
Definition parse (lower : string -> string) (insensitive : bool)
           (src : Source) : File :=
  mkFile insensitive
    (fold_left (addBlock lower insensitive) (blocks src)
       (NewSection []
          (sectionName lower insensitive (norm lower insensitive DefaultSection))
          (keyNames lower insensitive (preamble src)))).

(** [File.Sections]: the sections in the order of the section list. *)
Definition Sections (f : File) : list Section := sectionList f.

(** [File.GetSection]: an empty name means the default section. *)
Definition GetSection (lower : string -> string) (f : File) (name : string)
  : option Section :=
  let name := if (len name =? 0)%nat then DefaultSection else name in
  let name := norm lower (Insensitive f) name in
  find (fun s => String.eqb (Name s) name) (sectionList f).

(** [Key.MustBool]'s parser. *)
Definition parseBool (str : string) : option bool :=
  if existsb (String.eqb str)
       ["1"; "t"; "T"; "true"; "TRUE"; "True"; "YES"; "yes"; "Yes"; "y";
        "ON"; "on"; "On"]
  then Some true
  else if existsb (String.eqb str)
       ["0"; "f"; "F"; "false"; "FALSE"; "False"; "NO"; "no"; "No"; "n";
        "OFF"; "off"; "Off"]
  then Some false
  else None.

(** [section.Key(name)] on the settings store: the value, empty when the
    key is absent. *)
Definition Key (sec : gmap string string) (name : string) : string :=
  default "" (sec !! name).

Definition MustBool (value : string) (defaultVal : bool) : bool :=
  default defaultVal (parseBool value).

End ini.

(** ** The outside world *)

(** The file system as the commands observe it: the paths [os.Stat]
    succeeds on, the ini files that can be read and parsed, and the
    directories that cannot be created. *)
Record FS := mkFS {
  nodes : gset string;
  ini_data : gmap string ini.Source;
  mkdir_fails : gset string
}.

Record World := mkWorld {
  GOOS : string;
  environ : gmap string string;           (* os.LookupEnv *)
  Join : list string -> string;           (* filepath.Join *)
  ToLower : string -> string;             (* strings.ToLower *)
  GetExecutableDir : string;              (* utils.GetExecutableDir *)
  fs : FS;
  settingSection : gmap string string;    (* cfg.GetSection("Setting") *)
  extensions : list string;  (* featureSection.Key("extensions").Strings("|") *)
  userThemesFolder : string;
  spotifyPath : string;
  appPath : string;
  IsModdable : string -> bool;            (* spotifystatus.Get(p).IsModdable() *)
  getExtensionPath : string -> option string;
  GetDebuggerPath : string;               (* utils.GetDebuggerPath *)
  DoSendReload : string -> string * bool; (* utils.SendReload: url after the call, success *)
  DoCopyFile : string -> string -> option string;   (* utils.CopyFile: its error *)
  PrependTime : string -> string          (* utils.PrependTime *)
}.

Definition Stat (w : World) (path : string) : bool :=
  bool_decide (path ∈ nodes (fs w)).

(** [ini.InsensitiveLoad]: an error ([None]) when the file is absent or
    cannot be parsed. *)
Definition InsensitiveLoad (w : World) (path : string) : option ini.File :=
  if Stat w path
  then ini.parse (ToLower w) true <$> (ini_data (fs w) !! path)
  else None.

(** ** Package variables and commands *)

(** The one function value ever stored in [autoReloadFunc]. *)
Inductive Closure := ReloadSpotify.

Record Globals := mkGlobals {
  themeFolder : string;
  colorCfg : option ini.File;
  colorSection : option ini.Section;
  injectCSS : bool;
  replaceColors : bool;
  overwriteAssets : bool;
  debuggerURL : string;
  autoReloadFunc : option Closure
}.

(** The variables as the Go runtime initialises them. *)
Definition zero : Globals :=
  mkGlobals "" None None false false false "" None.

Definition set_themeFolder (v : string) (g : Globals) : Globals :=
  mkGlobals v (colorCfg g) (colorSection g) (injectCSS g) (replaceColors g)
    (overwriteAssets g) (debuggerURL g) (autoReloadFunc g).
Definition set_colorCfg (v : option ini.File) (g : Globals) : Globals :=
  mkGlobals (themeFolder g) v (colorSection g) (injectCSS g) (replaceColors g)
    (overwriteAssets g) (debuggerURL g) (autoReloadFunc g).
Definition set_colorSection (v : option ini.Section) (g : Globals) : Globals :=
  mkGlobals (themeFolder g) (colorCfg g) v (injectCSS g) (replaceColors g)
    (overwriteAssets g) (debuggerURL g) (autoReloadFunc g).
Definition set_injectCSS (v : bool) (g : Globals) : Globals :=
  mkGlobals (themeFolder g) (colorCfg g) (colorSection g) v (replaceColors g)
    (overwriteAssets g) (debuggerURL g) (autoReloadFunc g).
Definition set_replaceColors (v : bool) (g : Globals) : Globals :=
  mkGlobals (themeFolder g) (colorCfg g) (colorSection g) (injectCSS g) v
    (overwriteAssets g) (debuggerURL g) (autoReloadFunc g).
Definition set_overwriteAssets (v : bool) (g : Globals) : Globals :=
  mkGlobals (themeFolder g) (colorCfg g) (colorSection g) (injectCSS g)
    (replaceColors g) v (debuggerURL g) (autoReloadFunc g).
Definition set_debuggerURL (v : string) (g : Globals) : Globals :=
  mkGlobals (themeFolder g) (colorCfg g) (colorSection g) (injectCSS g)
    (replaceColors g) (overwriteAssets g) v (autoReloadFunc g).
Definition set_autoReloadFunc (v : option Closure) (g : Globals) : Globals :=
  mkGlobals (themeFolder g) (colorCfg g) (colorSection g) (injectCSS g)
    (replaceColors g) (overwriteAssets g) (debuggerURL g) v.

(** What a command leaves behind for an observer. *)
Inductive Event :=
| PrintError (msg : string)
| PrintInfo (msg : string)
| PrintSuccess (msg : string)
| RestartSpotify (flag : string)
| SendReload (url : string)
| updateCSS
| updateAssets
| CopyFile (src dest : string).

Inductive Result (A : Type) :=
| Ok (a : A) (g : Globals)
| Exit (code : Z).
Arguments Ok {A} a g.
Arguments Exit {A} code.

Definition Cmd (A : Type) : Type := Globals -> list Event * Result A.

Definition ret {A} (a : A) : Cmd A := fun g => ([], Ok a g).

Definition bind {A B} (m : Cmd A) (k : A -> Cmd B) : Cmd B :=
  fun g =>
    match m g with
    | (t, Ok a g') => let (t', r) := k a g' in (t ++ t', r)
    | (t, Exit c) => (t, Exit c)
    end.

Declare Scope cmd_scope.
Delimit Scope cmd_scope with cmd.
Notation "x <- c ;; k" := (bind c (fun x => k))
  (at level 100, c at next level, k at level 200, right associativity) : cmd_scope.
Notation "c ;; k" := (bind c (fun _ => k))
  (at level 100, k at level 200, right associativity) : cmd_scope.
Local Open Scope cmd_scope.

Definition emit (e : Event) : Cmd unit := fun g => ([e], Ok tt g).
Definition os_Exit {A} (code : Z) : Cmd A := fun _ => ([], Exit code).
Definition read {A} (field : Globals -> A) : Cmd A := fun g => ([], Ok (field g) g).
Definition assign {A} (set : A -> Globals -> Globals) (v : A) : Cmd unit :=
  fun g => ([], Ok tt (set v g)).
Definition when (b : bool) (c : Cmd unit) : Cmd unit := if b then c else ret tt.

(** ** The settings file of package cmd *)

Definition getThemeFolder (w : World) (themeName : string) : Cmd string :=
  let folder := Join w [userThemesFolder w; themeName] in
  if Stat w folder then ret folder
  else
    let folder := Join w [GetExecutableDir w; "Themes"; themeName] in
    if Stat w folder then ret folder
    else
      emit (PrintError ("Theme " ++ dq ++ themeName ++ dq ++ " not found")) ;;
      os_Exit 1.

(** The part of [InitSetting] after the three existence checks, entered
    with [replaceColors] still set. *)
Definition loadColors (w : World) (colorPath : string) : Cmd unit :=
  match InsensitiveLoad w colorPath with
  | None =>
      assign set_colorCfg None ;;
      emit (PrintError ("Cannot open file " ++ colorPath)) ;;
      assign set_replaceColors false
  | Some f =>
      assign set_colorCfg (Some f) ;;
      let sections := ini.Sections f in
      if (length sections <? 2)%nat then
        emit (PrintError ("No section found in " ++ colorPath)) ;;
        assign set_replaceColors false
      else
        let schemeName := ini.Key (settingSection w) "color_scheme" in
        if (len schemeName =? 0)%nat then
          assign set_colorSection (sections !! 1%nat)
        else
          match ini.GetSection (ToLower w) f schemeName with
          | None => assign set_colorSection (sections !! 1%nat)
          | Some schemeSection => assign set_colorSection (Some schemeSection)
          end
  end.

Definition InitSetting (w : World) : Cmd unit :=
  assign set_replaceColors
    (ini.MustBool (ini.Key (settingSection w) "replace_colors") false) ;;
  assign set_injectCSS
    (ini.MustBool (ini.Key (settingSection w) "inject_css") false) ;;
  assign set_overwriteAssets
    (ini.MustBool (ini.Key (settingSection w) "overwrite_assets") false) ;;
  let themeName := ini.Key (settingSection w) "current_theme" in
  if (len themeName =? 0)%nat then
    assign set_injectCSS false ;;
    assign set_replaceColors false ;;
    assign set_overwriteAssets false
  else
    folder <- getThemeFolder w themeName ;;
    assign set_themeFolder folder ;;
    dir <- read themeFolder ;;
    let colorPath := Join w [dir; "color.ini"] in
    let cssPath := Join w [dir; "user.css"] in
    let assetsPath := Join w [dir; "assets"] in
    b <- read replaceColors ;;
    when b (assign set_replaceColors (Stat w colorPath)) ;;
    b <- read injectCSS ;;
    when b (assign set_injectCSS (Stat w cssPath)) ;;
    b <- read overwriteAssets ;;
    when b (assign set_overwriteAssets (Stat w assetsPath)) ;;
    b <- read replaceColors ;;
    if negb b then ret tt
    else loadColors w colorPath.

(** [GetConfigPath]. *)
Definition GetConfigPath (w : World) (spicetifyFolder : string) : string :=
  Join w [spicetifyFolder; "config.ini"].

(** A command of the start-up phase works on the file system only: it
    ends with a value and the file system it leaves, or stops the process. *)
Inductive Ensured (A : Type) :=
| Done (a : A) (f : FS)
| Stopped.
Arguments Done {A} a f.
Arguments Stopped {A}.

(** Modelled from the spec: [utils.CheckExistAndCreate] is not among the
    sources.  The specification calls it an idempotent directory ensure:
    a directory that exists is left alone, an absent one is created, and a
    creation that fails stops the process. *)
Definition CheckExistAndCreate (f : FS) (dir : string) : Ensured unit :=
  if bool_decide (dir ∈ nodes f) then Done tt f
  else if bool_decide (dir ∈ mkdir_fails f) then Stopped
  else Done tt (mkFS ({[dir]} ∪ nodes f) (ini_data f) (mkdir_fails f)).

(** [os.LookupEnv]: the value (empty when unset) and whether it is set. *)
Definition LookupEnv (w : World) (name : string) : string * bool :=
  match environ w !! name with
  | Some v => (v, true)
  | None => ("", false)
  end.

Definition Getenv (w : World) (name : string) : string := fst (LookupEnv w name).

(** The value [getSpicetifyFolder] returns; the deferred call then runs
    on that same value. *)
Definition spicetifyFolderPath (w : World) : string :=
  let (result, isAvailable) := LookupEnv w "SPICETIFY_CONFIG" in
  if isAvailable && (0 <? len result)%nat then result
  else if String.eqb (GOOS w) "windows" then
    Join w [Getenv w "USERPROFILE"; ".spicetify"]
  else if String.eqb (GOOS w) "linux" || String.eqb (GOOS w) "darwin" then
    let (parent, isAvailable) := LookupEnv w "XDG_CONFIG_HOME" in
    let parent :=
      if negb isAvailable || (len parent =? 0)%nat
      then Join w [Getenv w "HOME"; ".config"] else parent in
    Join w [parent; "spicetify"]
  else result.

Definition getSpicetifyFolder (w : World) : Ensured string :=
  let result := spicetifyFolderPath w in
  match CheckExistAndCreate (fs w) result with
  | Done _ f => Done result f
  | Stopped => Stopped
  end.

(** ** src/cmd/watch.go *)

(** The reaction callbacks handed to the watchers. *)
Inductive Handler := OnThemeFiles | OnAssets | OnExtension (zlinkFolder : string).

(** A call of [utils.Watch] or [utils.WatchRecursive]. *)
Record Subscription := mkSubscription {
  paths : list string;
  recursive : bool;
  onChange : Handler;
  onReload : option Closure
}.

Definition isValidForWatching (w : World) : Cmd bool :=
  if negb (IsModdable w (spotifyPath w)) then
    emit (PrintError ("You haven't applied. Run " ++ dq ++ "spicetify apply"
                        ++ dq ++ " once before entering watch mode.")) ;;
    ret false
  else ret true.

(** The body of the function value [startDebugger] stores. *)
Definition call (w : World) (c : Closure) : Cmd unit :=
  match c with
  | ReloadSpotify =>
      url <- read debuggerURL ;;
      emit (SendReload url) ;;
      let (url', ok) := DoSendReload w url in
      assign set_debuggerURL url' ;;
      if negb ok then
        emit (PrintError "Could not Reload Spotify") ;;
        emit (PrintInfo ("Close Spotify and run " ++ dq ++ "spicetify watch -e -l"
                           ++ dq ++ " again."))
      else emit (PrintSuccess "Spotify reloaded")
  end.

Definition startDebugger (w : World) : Cmd unit :=
  assign set_debuggerURL (GetDebuggerPath w) ;;
  url <- read debuggerURL ;;
  when (len url =? 0)%nat (emit (RestartSpotify "--remote-debugging-port=9222")) ;;
  assign set_autoReloadFunc (Some ReloadSpotify).

(** Modelled from the spec: [utils.Fatal] is not among the sources; a
    watcher error is reported and the process terminates. *)
Definition Fatal {A} (err : string) : Cmd A :=
  emit (PrintError err) ;; os_Exit 1.

(** The callbacks, applied to the changed path and the watcher's error. *)
Definition react (w : World) (h : Handler) (filePath : string)
           (err : option string) : Cmd unit :=
  match h with
  | OnAssets =>
      match err with
      | Some e => Fatal e
      | None => emit updateAssets
      end
  | OnThemeFiles =>
      match err with
      | Some e => Fatal e
      | None => InitSetting w ;; emit updateCSS
      end
  | OnExtension zlinkFolder =>
      match err with
      | Some e => emit (PrintError e) ;; os_Exit 1
      | None =>
          emit (CopyFile filePath zlinkFolder) ;;
          match DoCopyFile w filePath zlinkFolder with
          | Some e => emit (PrintError e) ;; os_Exit 1
          | None =>
              emit (PrintSuccess
                      (PrependTime w ("Extension " ++ dq ++ filePath ++ dq
                                        ++ " is updated.")))
          end
      end
  end.

(** [Watch] up to its watcher calls: the subscriptions it starts, the
    recursive one (a goroutine) before the blocking one. *)
Definition Watch (w : World) (liveUpdate : bool) : Cmd (list Subscription) :=
  valid <- isValidForWatching w ;;
  if negb valid then os_Exit 1
  else
    InitSetting w ;;
    when liveUpdate (startDebugger w) ;;
    dir <- read themeFolder ;;
    if (len dir =? 0)%nat then
      emit (PrintError ("Config " ++ dq ++ "current_theme" ++ dq
                          ++ " is blank. No theme asset to watch.")) ;;
      os_Exit 1
    else
      let colorPath := Join w [dir; "color.ini"] in
      let cssPath := Join w [dir; "user.css"] in
      let fileList := [] in
      rc <- read replaceColors ;;
      let fileList := if rc then fileList ++ [colorPath] else fileList in
      css <- read injectCSS ;;
      let fileList := if css then fileList ++ [cssPath] else fileList in
      oa <- read overwriteAssets ;;
      reload <- read autoReloadFunc ;;
      let assets :=
        if oa then [mkSubscription [Join w [dir; "assets"]] true OnAssets reload]
        else [] in
      ret (assets ++ [mkSubscription fileList false OnThemeFiles reload]).

(** The loop of [WatchExtensions] over the configured names. *)
Fixpoint resolveExtensions (w : World) (extNameList extPathList : list string)
  : Cmd (list string) :=
  match extNameList with
  | [] => ret extPathList
  | v :: rest =>
      match getExtensionPath w v with
      | None =>
          emit (PrintError ("Extension " ++ dq ++ v ++ dq ++ " not found.")) ;;
          resolveExtensions w rest extPathList
      | Some extPath => resolveExtensions w rest (extPathList ++ [extPath])
      end
  end.

Definition WatchExtensions (w : World) (liveUpdate : bool) : Cmd Subscription :=
  valid <- isValidForWatching w ;;
  if negb valid then os_Exit 1
  else
    when liveUpdate (startDebugger w) ;;
    extPathList <- resolveExtensions w (extensions w) [] ;;
    if (length extPathList =? 0)%nat then
      emit (PrintError "No extension to watch.") ;;
      os_Exit 1
    else
      let zlinkFolder := Join w [appPath w; "zlink"] in
      reload <- read autoReloadFunc ;;
      ret (mkSubscription extPathList false (OnExtension zlinkFolder) reload).

(** Modelled from the spec: the watch loop of [utils.Watch] is not among
    the sources.  On each change event the dispatcher invokes the change
    handler with the path and the watcher's error and then, when the
    handler returned, the reload handler if one is bound.  Each event
    meets the world as it is when the event arrives. *)
Definition dispatch (sub : Subscription) (ev : World * string * option string)
  : Cmd unit :=
  let '(w, filePath, err) := ev in
  react w (onChange sub) filePath err ;;
  match onReload sub with
  | Some c => call w c
  | None => ret tt
  end.

Fixpoint watchLoop (sub : Subscription)
         (events : list (World * string * option string)) : Cmd unit :=
  match events with
  | [] => ret tt
  | ev :: rest => dispatch sub ev ;; watchLoop sub rest
  end.

(** ** A sample installation

    One theme, [Dark], in the user's themes folder, with a color file of
    two schemes (three sections with the default section), a stylesheet
    and no assets directory. *)
Module Sample.

Definition join (elem : list string) : string := String.concat "/" elem.

(** Lower case of the ASCII letters. *)
Definition lower_ascii (c : ascii) : ascii :=
  let n := nat_of_ascii c in
  if (65 <=? n)%nat && (n <=? 90)%nat then ascii_of_nat (n + 32) else c.

Fixpoint lower (s : string) : string :=
  match s with
  | EmptyString => EmptyString
  | String c r => String (lower_ascii c) (lower r)
  end.

Definition colors : ini.Source :=
  ini.mkSource []
    [ ini.mkSection "SchemeA" [("main_fg", "ffffff")];
      ini.mkSection "SchemeB" [("main_fg", "000000")] ].

(** The same color file with a block under the header [[DEFAULT]]
    before the schemes. *)
Definition shadowed : ini.Source :=
  ini.mkSource []
    [ ini.mkSection ini.DefaultSection [("main_fg", "111111")];
      ini.mkSection "SchemeA" [("main_fg", "ffffff")];
      ini.mkSection "SchemeB" [("main_fg", "000000")] ].

Definition disk : FS :=
  mkFS (list_to_set ["/cfg/Themes/Dark"; "/cfg/Themes/Dark/color.ini";
                     "/cfg/Themes/Dark/user.css"; "/cfg/Extensions/a.js"])
       {[ "/cfg/Themes/Dark/color.ini" := colors ]}
       ∅.

(** The same disk with a color file that cannot be parsed, with a color
    file of keys and no header (a single section), with the color file
    [shadowed], and with no color file. *)
Definition broken : FS := mkFS (nodes disk) ∅ ∅.

Definition single : FS :=
  mkFS (nodes disk)
       {[ "/cfg/Themes/Dark/color.ini" := ini.mkSource [("main_fg", "ffffff")] [] ]}
       ∅.

Definition default_block : FS :=
  mkFS (nodes disk) {[ "/cfg/Themes/Dark/color.ini" := shadowed ]} ∅.

(** The theme in the user's folder and among the bundled themes. *)
Definition both : FS :=
  mkFS (list_to_set ["/cfg/Themes/Dark"; "/opt/spicetify/Themes/Dark";
                     "/opt/spicetify/Themes/Dark/user.css"]) ∅ ∅.

Definition no_colors : FS :=
  mkFS (list_to_set ["/cfg/Themes/Dark"; "/cfg/Themes/Dark/user.css"]) ∅ ∅.

Definition world (setting : gmap string string) (disk : FS) : World :=
  mkWorld "linux" {[ "SPICETIFY_CONFIG" := "/cfg" ]} join lower "/opt/spicetify" disk
    setting ["a.js"; "b.js"] "/cfg/Themes" "/opt/spotify" "/opt/spotify/Apps"
    (fun _ => true)
    (fun v => if String.eqb v "a.js" then Some "/cfg/Extensions/a.js" else None)
    "ws://localhost:9222/x"
    (fun url => (url, false))
    (fun _ _ => None)
    (fun s => s).

(** An installation that was never patched, and one whose Spotify runs
    without a debugger. *)
Definition unpatched : World :=
  mkWorld "linux" ∅ join lower "/opt/spicetify" disk
    {[ "current_theme" := "Dark" ]} ["a.js"] "/cfg/Themes" "/opt/spotify"
    "/opt/spotify/Apps" (fun _ => false) (fun _ => None) "" (fun url => (url, false))
    (fun _ _ => None) (fun s => s).

Definition no_debugger (setting : gmap string string) : World :=
  mkWorld "linux" ∅ join lower "/opt/spicetify" disk
    setting ["a.js"; "b.js"; "a.js"] "/cfg/Themes" "/opt/spotify" "/opt/spotify/Apps"
    (fun _ => true)
    (fun v => if String.eqb v "a.js" then Some "/cfg/Extensions/a.js" else None)
    ""
    (fun url => ("ws://localhost:9222/y", true))
    (fun _ dest => if String.eqb dest "/readonly" then Some "denied" else None)
    (fun s => s).

(** A disk with Spotify installed, and a world on it. *)
Definition installed : FS :=
  mkFS (list_to_set ["/opt/spotify"; "/home/u/.config/spotify/prefs"]) ∅ ∅.

Definition host (goos : string) (setting : gmap string string) : World :=
  mkWorld goos ∅ join lower "/opt/spicetify" installed
    setting [] "/cfg/Themes" "" "" (fun _ => true) (fun _ => None) ""
    (fun url => (url, false)) (fun _ _ => None) (fun s => s).

Definition setting (scheme : string) : gmap string string :=
  {[ "current_theme" := "Dark"; "color_scheme" := scheme;
     "replace_colors" := "1"; "inject_css" := "1"; "overwrite_assets" := "1" ]}.

Definition no_theme : gmap string string :=
  {[ "current_theme" := ""; "replace_colors" := "1"; "inject_css" := "1";
     "overwrite_assets" := "1" ]}.

(** The variables a resolution on [disk] leaves for the next one. *)
Definition previous : Globals :=
  match InitSetting (world (setting "") disk) zero with
  | (_, Ok _ g) => g
  | (_, Exit _) => zero
  end.

End Sample.

(** ** The start-up functions of the settings file

    [InitPaths] and [ReadAnswer] run before any watcher exists.  They print, ask
    [utils] to detect the installation, persist the configuration and
    read the console; their variables ([spotifyPath], [prefsPath],
    [isAppX], [appPath], [appDestPath], [quiet]) are kept apart from the
    ones the watch commands use. *)
Module Startup.

Inductive Console :=
| ErrorLine (msg : string)                   (* utils.PrintError *)
| Printed (text : string)                    (* fmt.Print *)
| cfg_Write (setting : gmap string string).  (* cfg.Write, with the Setting section it saves *)

(** The package variables [InitPaths] assigns, with the settings section
    as it leaves it. *)
Record Vars := mkVars {
  spotifyPath : string;
  prefsPath : string;
  isAppX : bool;
  appPath : string;
  appDestPath : string;
  setting : gmap string string
}.

Inductive Outcome (A : Type) :=
| Finished (a : A) (disk : FS)
| Quit (code : Z)
| Unavailable.
Arguments Finished {A} a disk.
Arguments Quit {A} code.
Arguments Unavailable {A}.

(** [strings.Contains]. *)
Fixpoint Contains (s substr : string) : bool :=
  if String.prefix substr s then true
  else match s with
       | EmptyString => false
       | String _ rest => Contains rest substr
       end.

(** One stanza of [InitPaths]: the configured path if there is one, which
    must exist; otherwise the detected one, which is stored and saved;
    [None] is [os.Exit(1)]. *)
Definition locate (w : World) (store : gmap string string) (key detected : string)
           (invalid : string -> string) (undetected : string)
  : list Console * option (string * gmap string string) :=
  let path := ini.Key store key in
  if negb (len path =? 0)%nat then
    if Stat w path then ([], Some (path, store))
    else ([ErrorLine (invalid path)], None)
  else
    let path := detected in
    if negb (len path =? 0)%nat then
      let store := <[key := path]> store in
      ([cfg_Write store], Some (path, store))
    else ([ErrorLine undetected], None).

Definition InitPaths (w : World) (FindAppPath FindPrefFilePath : string)
           (spicetifyFolder : string) (isAppX0 : bool)
  : list Console * Outcome Vars :=
  match locate w (settingSection w) "spotify_path" FindAppPath
          (fun p => (p ++ " does not exist or is not a valid path. Please manually set "
                       ++ dq ++ "spotify_path" ++ dq
                       ++ " in config.ini to correct directory of Spotify.")%string)
          ("Cannot detect Spotify location. Please manually set "
             ++ dq ++ "spotify_path" ++ dq ++ " in config.ini")
  with
  | (t1, None) => (t1, Quit 1)
  | (t1, Some (spotifyPath, store)) =>
      match locate w store "prefs_path" FindPrefFilePath
              (fun p => (p ++ " does not exist or is not a valid path. Please manually set "
                           ++ dq ++ "prefs_path" ++ dq
                           ++ " in config.ini to correct path of "
                           ++ dq ++ "prefs" ++ dq ++ " file.")%string)
              ("Cannot detect Spotify " ++ dq ++ "prefs" ++ dq
                 ++ " file location. Please manually set "
                 ++ dq ++ "prefs_path" ++ dq ++ " in config.ini")
      with
      | (t2, None) => (t1 ++ t2, Quit 1)
      | (t2, Some (prefsPath, store)) =>
          let isAppX :=
            if String.eqb (GOOS w) "windows"
            then Contains spotifyPath "SpotifyAB.SpotifyMusic" else isAppX0 in
          let appPath := Join w [spotifyPath; "Apps"] in
          let appDestPath :=
            if isAppX then Join w [spicetifyFolder; "AppX"] else appPath in
          match CheckExistAndCreate (fs w) appDestPath with
          | Done _ disk =>
              (t1 ++ t2,
               Finished (mkVars spotifyPath prefsPath isAppX appPath appDestPath store)
                        disk)
          | Stopped => (t1 ++ t2, Unavailable)
          end
      end
  end.

(** [strings.Replace(s, old, "", 1)] for a one-byte [old]. *)
Fixpoint removeFirst (old : ascii) (s : string) : string :=
  match s with
  | EmptyString => EmptyString
  | String c rest => if Ascii.eqb c old then rest else String c (removeFirst old rest)
  end.

Definition CR : ascii := ascii_of_nat 13.
Definition LF : ascii := ascii_of_nat 10.

(** What [ReadAnswer] makes of one line: the answer, or [None] when it
    asks again. *)
Definition answer (text : string) (defaultAnswer : bool) : option bool :=
  let text := removeFirst CR text in
  let text := removeFirst LF text in
  if (len text =? 0)%nat then Some defaultAnswer
  else if String.eqb text "y" || String.eqb text "Y" then Some true
  else if String.eqb text "n" || String.eqb text "N" then Some false
  else None.

(** [bufio.Reader.ReadString] with the line feed as delimiter, on a
    reader that holds [text] so far.  [stdin] lists what the successive
    reads of [os.Stdin] deliver, and ends where the input ends.  The
    reader reads until a chunk holds the delimiter and returns the text
    through it; what that chunk holds behind the delimiter stays in the
    reader's buffer.  At the end of the input it returns what it has.
    The result is the text and the reads not made. *)
Fixpoint ReadString (text : string) (stdin : list string) : string * list string :=
  match stdin with
  | [] => (text, [])
  | chunk :: rest =>
      if occurs LF chunk then ((text ++ through LF chunk)%string, rest)
      else ReadString (text ++ chunk)%string rest
  end.

(** [ReadAnswer], for at most [calls] calls.  Every call makes a reader
    of its own ([bufio.NewReader(os.Stdin)]) and drops it with whatever
    it has buffered, so the next call starts at the reads not made.  The
    result is what was printed, the answer and the reads not made. *)
Fixpoint ReadAnswerN (calls : nat) (quiet : bool) (info : string)
         (defaultAnswer quietModeAnswer : bool) (stdin : list string)
  : list Console * bool * list string :=
  match calls with
  | O => ([], defaultAnswer, stdin)
  | S calls =>
      if quiet then ([], quietModeAnswer, stdin)
      else
        let '(text, unread) := ReadString "" stdin in
        match answer text defaultAnswer with
        | Some b => ([Printed info], b, unread)
        | None =>
            let '(t, b, unread) :=
              ReadAnswerN calls quiet info defaultAnswer quietModeAnswer unread in
            (Printed info :: t, b, unread)
        end
  end.

(** [ReadAnswer].  A call that asks again has read a chunk, and the end
    of the input reads as the empty text, which is an answer: one call
    more than there are chunks is never used up. *)
Definition ReadAnswer (quiet : bool) (info : string)
           (defaultAnswer quietModeAnswer : bool) (stdin : list string)
  : list Console * bool * list string :=
  ReadAnswerN (S (length stdin)) quiet info defaultAnswer quietModeAnswer stdin.

End Startup.

(** ** Vocabulary of the statements *)

Definition themeName (w : World) : string :=
  ini.Key (settingSection w) "current_theme".

Definition schemeName (w : World) : string :=
  ini.Key (settingSection w) "color_scheme".

(** The raw preference stored under a key of the settings section. *)
Definition preference (w : World) (key : string) : bool :=
  ini.MustBool (ini.Key (settingSection w) key) false.

(** The theme resources under a theme folder. *)
Definition colorPath (w : World) (folder : string) : string := Join w [folder; "color.ini"].
Definition cssPath (w : World) (folder : string) : string := Join w [folder; "user.css"].
Definition assetsPath (w : World) (folder : string) : string := Join w [folder; "assets"].

(** [getThemeFolder] finds the configured theme in [folder]. *)
Definition themeResolves (w : World) (folder : string) : Prop :=
  ∀ g, getThemeFolder w (themeName w) g = ([], Ok folder g).

(** The variables after the existence checks of [InitSetting]. *)
Definition checked (w : World) (folder : string) (g : Globals) : Globals :=
  mkGlobals folder (colorCfg g) (colorSection g)
    (preference w "inject_css" && Stat w (cssPath w folder))
    (preference w "replace_colors" && Stat w (colorPath w folder))
    (preference w "overwrite_assets" && Stat w (assetsPath w folder))
    (debuggerURL g) (autoReloadFunc g).

(** The variables after [InitSetting] found no theme name. *)
Definition disabled (g : Globals) : Globals :=
  mkGlobals (themeFolder g) (colorCfg g) (colorSection g) false false false
    (debuggerURL g) (autoReloadFunc g).

(** The theme settings: the three flags, the theme folder and the color
    section. *)
Definition effective (g : Globals)
  : bool * bool * bool * string * option ini.Section :=
  (replaceColors g, injectCSS g, overwriteAssets g, themeFolder g, colorSection g).

(** What [startDebugger] leaves when it runs under [liveUpdate]. *)
Definition debuggerTrace (w : World) (liveUpdate : bool) : list Event :=
  if liveUpdate && (len (GetDebuggerPath w) =? 0)%nat
  then [RestartSpotify "--remote-debugging-port=9222"] else [].

Definition debugged (w : World) (liveUpdate : bool) (g : Globals) : Globals :=
  if liveUpdate
  then set_autoReloadFunc (Some ReloadSpotify) (set_debuggerURL (GetDebuggerPath w) g)
  else g.

(** The world with other environment variables. *)
Definition withEnviron (e : gmap string string) (w : World) : World :=
  mkWorld (GOOS w) e (Join w) (ToLower w) (GetExecutableDir w) (fs w)
    (settingSection w) (extensions w) (userThemesFolder w) (spotifyPath w)
    (appPath w) (IsModdable w) (getExtensionPath w) (GetDebuggerPath w)
    (DoSendReload w) (DoCopyFile w) (PrependTime w).

(** The two places [getThemeFolder] looks in. *)
Definition userTheme (w : World) : string :=
  Join w [userThemesFolder w; themeName w].
Definition bundledTheme (w : World) : string :=
  Join w [GetExecutableDir w; "Themes"; themeName w].

Definition isPrintError (e : Event) : bool :=
  match e with PrintError _ => true | _ => false end.

(** A path of [InitPaths] can be had: it is configured and exists, or it
    is not configured and detection finds one. *)
Definition obtainable (w : World) (key detected : string) : Prop :=
  (len (ini.Key (settingSection w) key) ≠ 0%nat ∧
   Stat w (ini.Key (settingSection w) key) = true) ∨
  (len (ini.Key (settingSection w) key) = 0%nat ∧ len detected ≠ 0%nat).

Definition isErrorLine (c : Startup.Console) : bool :=
  match c with Startup.ErrorLine _ => true | _ => false end.








(** [InitSetting] selects the section the parser made for the block
    [blk] of the color file [src]: the one section stored under the
    block's name, holding every key of the block. *)
Definition selectsBlock (w : World) (g : Globals) (src : ini.Source)
           (blk : ini.Section) : Prop :=
  ∃ g' s,
    InitSetting w g = ([], Ok tt g') ∧
    colorSection g' = Some s ∧
    s ∈ ini.Sections (ini.parse (ToLower w) true src) ∧
    ini.Name s = ini.sectionName (ToLower w) true (ini.Name blk) ∧
    (∀ s', s' ∈ ini.Sections (ini.parse (ToLower w) true src) →
           ini.Name s' = ini.Name s → s' = s) ∧
    (∀ k, k ∈ map fst (ini.Keys blk) → ToLower w k ∈ map fst (ini.Keys s)).

(** A section list holds key [k] in its section [name]. *)
Definition hasKey (secs : list ini.Section) (name k : string) : Prop :=
  ∃ s, s ∈ secs ∧ ini.Name s = name ∧ k ∈ map fst (ini.Keys s).

(** Runs the first command of a sequence with the equation [H] for it. *)
Ltac step H := unfold bind at 1; rewrite H.

(** * Properties *)

(** ** Facts about the ini model *)

Section ini_facts.
Import ini.
Implicit Types (secs : list Section) (src : Source) (s : Section).
Implicit Types (lower : string → string).

Lemma NewSection_names_inv secs name keys m :
  m ∈ map Name (NewSection secs name keys) → m ∈ map Name secs ∨ m = name.
Proof.
  induction secs as [|s secs IH]; simpl.
  - intros H. apply list_elem_of_singleton in H. now right.
  - destruct (String.eqb_spec (Name s) name) as [E|E]; simpl; intros H.
    + now left.
    + apply elem_of_cons in H as [->|H]; [left; apply elem_of_cons; now left|].
      destruct (IH H) as [H'|H']; [left; apply elem_of_cons; now right|now right].
Qed.

Lemma NewSection_names_mono secs name keys m :
  m ∈ map Name secs → m ∈ map Name (NewSection secs name keys).
Proof.
  induction secs as [|s secs IH]; simpl; [intros H; inversion H|].
  destruct (String.eqb_spec (Name s) name) as [E|E]; simpl; [easy|].
  intros H. apply elem_of_cons in H as [->|H]; apply elem_of_cons; auto.
Qed.

Lemma NewSection_names_new secs name keys :
  name ∈ map Name (NewSection secs name keys).
Proof.
  induction secs as [|s secs IH]; simpl; [apply elem_of_cons; now left|].
  destruct (String.eqb_spec (Name s) name) as [E|E]; simpl;
    apply elem_of_cons; auto.
Qed.

Lemma NewSection_NoDup secs name keys :
  NoDup (map Name secs) → NoDup (map Name (NewSection secs name keys)).
Proof.
  induction secs as [|s secs IH]; simpl; intros H.
  - apply NoDup_singleton.
  - destruct (String.eqb_spec (Name s) name) as [E|E]; simpl; [exact H|].
    apply NoDup_cons in H as [Hs H]. apply NoDup_cons. split; [|auto].
    intros Hin. apply NewSection_names_inv in Hin as [Hin|Hin]; auto.
Qed.

Lemma addBlock_NoDup lower insensitive (blks : list Section) secs :
  NoDup (map Name secs) →
  NoDup (map Name (fold_left (addBlock lower insensitive) blks secs)).
Proof.
  revert secs. induction blks as [|blk blks IH]; simpl; intros secs H; [exact H|].
  apply IH. now apply NewSection_NoDup.
Qed.

(** The section list of a parsed file never holds a name twice. *)
Lemma parse_NoDup lower insensitive src :
  NoDup (map Name (sectionList (parse lower insensitive src))).
Proof.
  unfold parse; simpl. apply addBlock_NoDup, NoDup_singleton.
Qed.

Lemma addBlock_names_mono lower insensitive (blks : list Section) secs m :
  m ∈ map Name secs → m ∈ map Name (fold_left (addBlock lower insensitive) blks secs).
Proof.
  revert secs. induction blks as [|b blks IH]; simpl; intros secs H; [exact H|].
  apply IH. now apply NewSection_names_mono.
Qed.

Lemma addBlock_names lower insensitive (blks : list Section) secs blk :
  blk ∈ blks →
  sectionName lower insensitive (Name blk)
    ∈ map Name (fold_left (addBlock lower insensitive) blks secs).
Proof.
  revert secs. induction blks as [|b blks IH]; simpl; intros secs H; [inversion H|].
  apply elem_of_cons in H as [->|H]; [|now apply IH].
  apply addBlock_names_mono, NewSection_names_new.
Qed.

(** Every block of the data source has its section in the parsed file. *)
Lemma parse_names lower insensitive src blk :
  blk ∈ blocks src →
  sectionName lower insensitive (Name blk)
    ∈ map Name (sectionList (parse lower insensitive src)).
Proof. apply addBlock_names. Qed.

(** The default section comes first, whatever the data source holds. *)
Lemma addBlock_head lower insensitive (blks : list Section) s secs :
  ∃ s' secs', fold_left (addBlock lower insensitive) blks (s :: secs) = s' :: secs'
              ∧ Name s' = Name s.
Proof.
  revert s secs. induction blks as [|b blks IH]; simpl; intros s secs; [eauto|].
  unfold addBlock at 2; simpl.
  destruct (String.eqb (Name s) (sectionName lower insensitive (Name b))).
  - destruct (IH (mkSection (Name s)
       (NewKeys (Keys s) (keyNames lower insensitive (Keys b)))) secs)
      as (s' & secs' & -> & E). eauto.
  - apply IH.
Qed.

Lemma parse_default_first lower insensitive src :
  ∃ s secs, sectionList (parse lower insensitive src) = s :: secs ∧
    Name s = sectionName lower insensitive (norm lower insensitive DefaultSection).
Proof. unfold parse; simpl. apply addBlock_head. Qed.

(** Keys are never removed: [NewKey] overwrites or appends. *)
Lemma NewKey_fst_new (keys : list (string * string)) n v :
  n ∈ map fst (NewKey keys n v).
Proof.
  induction keys as [|[k v'] keys IH]; simpl; [apply elem_of_cons; now left|].
  destruct (String.eqb_spec k n) as [->|E]; simpl; apply elem_of_cons; auto.
Qed.

Lemma NewKey_fst_mono (keys : list (string * string)) n v k :
  k ∈ map fst keys → k ∈ map fst (NewKey keys n v).
Proof.
  induction keys as [|[k' v'] keys IH]; simpl; [intros H; inversion H|].
  destruct (String.eqb_spec k' n) as [->|E]; simpl; [easy|].
  intros H. apply elem_of_cons in H as [->|H]; apply elem_of_cons; auto.
Qed.

Lemma NewKeys_fst_mono (new keys : list (string * string)) k :
  k ∈ map fst keys → k ∈ map fst (NewKeys keys new).
Proof.
  unfold NewKeys. revert keys.
  induction new as [|[n v] new IH]; simpl; intros keys H; [exact H|].
  apply IH. now apply NewKey_fst_mono.
Qed.

Lemma NewKeys_fst_new (new keys : list (string * string)) k :
  k ∈ map fst new → k ∈ map fst (NewKeys keys new).
Proof.
  unfold NewKeys. revert keys.
  induction new as [|[n v] new IH]; simpl; intros keys H; [inversion H|].
  apply elem_of_cons in H as [->|H]; [|now apply IH].
  apply (NewKeys_fst_mono new), NewKey_fst_new.
Qed.

Lemma NewSection_hasKey_new secs name keys k :
  k ∈ map fst keys → hasKey (NewSection secs name keys) name k.
Proof.
  intros Hk. induction secs as [|s secs IH]; simpl.
  - eexists. split; [apply elem_of_cons; left; reflexivity|].
    split; [reflexivity|]. simpl. now apply NewKeys_fst_new.
  - destruct (String.eqb_spec (Name s) name) as [E|E].
    + eexists. split; [apply elem_of_cons; left; reflexivity|].
      split; [exact E|]. simpl. now apply NewKeys_fst_new.
    + destruct IH as (x & Hx & Hn & Hkx). exists x.
      split; [apply elem_of_cons; now right|auto].
Qed.

Lemma NewSection_hasKey_mono secs name keys n k :
  hasKey secs n k → hasKey (NewSection secs name keys) n k.
Proof.
  induction secs as [|s secs IH]; simpl; intros (x & Hx & Hn & Hk); [inversion Hx|].
  destruct (String.eqb_spec (Name s) name) as [E|E].
  - apply elem_of_cons in Hx as [->|Hx].
    + eexists. split; [apply elem_of_cons; left; reflexivity|].
      split; [exact Hn|]. simpl. now apply NewKeys_fst_mono.
    + exists x. split; [apply elem_of_cons; now right|auto].
  - apply elem_of_cons in Hx as [->|Hx].
    + exists s. split; [apply elem_of_cons; now left|auto].
    + destruct IH as (y & Hy & Hny & Hky); [exists x; auto|].
      exists y. split; [apply elem_of_cons; now right|auto].
Qed.

Lemma addBlock_hasKey_mono lower insensitive (blks : list Section) secs n k :
  hasKey secs n k → hasKey (fold_left (addBlock lower insensitive) blks secs) n k.
Proof.
  revert secs. induction blks as [|b blks IH]; simpl; intros secs H; [exact H|].
  apply IH. now apply NewSection_hasKey_mono.
Qed.

Lemma keyNames_fst lower insensitive (keys : list (string * string)) k :
  k ∈ map fst keys → norm lower insensitive k ∈ map fst (keyNames lower insensitive keys).
Proof.
  unfold keyNames. induction keys as [|[k' v] keys IH]; simpl; intros H; [inversion H|].
  apply elem_of_cons in H as [->|H]; apply elem_of_cons; auto.
Qed.

Lemma addBlock_keys lower insensitive (blks : list Section) secs blk k :
  blk ∈ blks → k ∈ map fst (Keys blk) →
  hasKey (fold_left (addBlock lower insensitive) blks secs)
    (sectionName lower insensitive (Name blk)) (norm lower insensitive k).
Proof.
  intros Hin Hk. revert secs Hin.
  induction blks as [|b blks IH]; simpl; intros secs H; [inversion H|].
  apply elem_of_cons in H as [->|H]; [|now apply IH].
  apply addBlock_hasKey_mono, NewSection_hasKey_new. now apply keyNames_fst.
Qed.

(** Every key of a block is a key of the block's section in the parsed
    file, under the name [NewKey] stores. *)
Lemma parse_keys lower insensitive src blk k :
  blk ∈ blocks src → k ∈ map fst (Keys blk) →
  hasKey (sectionList (parse lower insensitive src))
    (sectionName lower insensitive (Name blk)) (norm lower insensitive k).
Proof. apply addBlock_keys. Qed.

Lemma name_unique secs s s' :
  NoDup (map Name secs) → s ∈ secs → s' ∈ secs → Name s = Name s' → s = s'.
Proof.
  induction secs as [|x secs IH]; simpl; intros Hnd Hs Hs' E; [inversion Hs|].
  apply NoDup_cons in Hnd as [Hx Hnd].
  apply elem_of_cons in Hs as [->|Hs]; apply elem_of_cons in Hs' as [->|Hs'];
    auto.
  - exfalso. apply Hx. rewrite E. apply list_elem_of_fmap. eauto.
  - exfalso. apply Hx. rewrite <- E. apply list_elem_of_fmap. eauto.
Qed.

Lemma find_by_name_Some secs name s :
  find (fun x => String.eqb (Name x) name) secs = Some s → s ∈ secs ∧ Name s = name.
Proof.
  intros H. apply find_some in H as [Hin E].
  split; [now apply list_elem_of_In|now apply String.eqb_eq].
Qed.

Lemma find_by_name_None secs name s :
  find (fun x => String.eqb (Name x) name) secs = None → s ∈ secs → Name s ≠ name.
Proof.
  intros H Hin E. apply list_elem_of_In in Hin.
  pose proof (find_none _ _ H _ Hin) as F. simpl in F.
  apply String.eqb_neq in F. contradiction.
Qed.

Lemma find_by_name_unique secs s :
  NoDup (map Name secs) → s ∈ secs →
  find (fun x => String.eqb (Name x) (Name s)) secs = Some s.
Proof.
  intros Hnd Hin.
  destruct (find (fun x => String.eqb (Name x) (Name s)) secs) as [s'|] eqn:F.
  - apply find_by_name_Some in F as [Hin' E]. f_equal.
    eapply name_unique; eauto.
  - exfalso. eapply find_by_name_None; eauto.
Qed.

Lemma parse_Insensitive lower insensitive src :
  Insensitive (parse lower insensitive src) = insensitive.
Proof. reflexivity. Qed.

(** [GetSection] on a file loaded insensitively: the section whose
    stored name is the lower-cased request. *)
Lemma GetSection_insensitive lower src name s :
  len name ≠ 0%nat →
  s ∈ Sections (parse lower true src) → Name s = lower name →
  GetSection lower (parse lower true src) name = Some s.
Proof.
  intros Hlen Hin E. unfold GetSection. rewrite parse_Insensitive.
  destruct (Nat.eqb_spec (len name) 0) as [Z|_]; [contradiction|].
  unfold norm. rewrite <- E. apply find_by_name_unique; [apply parse_NoDup|exact Hin].
Qed.

Lemma GetSection_Some lower f name s :
  GetSection lower f name = Some s → s ∈ Sections f.
Proof. unfold GetSection. intros H. now apply find_by_name_Some in H as [H _]. Qed.

Lemma GetSection_None lower src name s :
  len name ≠ 0%nat →
  GetSection lower (parse lower true src) name = None →
  s ∈ Sections (parse lower true src) → Name s ≠ lower name.
Proof.
  unfold GetSection. rewrite parse_Insensitive. intros Hlen H Hin.
  destruct (Nat.eqb_spec (len name) 0) as [Z|_]; [contradiction|].
  eapply find_by_name_None; eauto.
Qed.

End ini_facts.

(** ** [InitSetting], path by path *)

Lemma getThemeFolder_cases (w : World) (name : string) :
  (∃ folder, Stat w folder = true ∧
             ∀ g, getThemeFolder w name g = ([], Ok folder g)) ∨
  (∃ msg, ∀ g, getThemeFolder w name g = ([PrintError msg], Exit 1)).
Proof.
  unfold getThemeFolder.
  destruct (Stat w (Join w [userThemesFolder w; name])) eqn:S1.
  - left. eexists. split; [exact S1|reflexivity].
  - destruct (Stat w (Join w [GetExecutableDir w; "Themes"; name])) eqn:S2.
    + left. eexists. split; [exact S2|reflexivity].
    + right. eexists. reflexivity.
Qed.

Lemma InitSetting_no_theme (w : World) (g : Globals) :
  len (themeName w) = 0%nat → InitSetting w g = ([], Ok tt (disabled g)).
Proof.
  unfold themeName. intros H. unfold InitSetting. rewrite H. reflexivity.
Qed.

Lemma InitSetting_theme (w : World) (g : Globals) (folder : string) :
  len (themeName w) ≠ 0%nat → themeResolves w folder →
  InitSetting w g =
    if replaceColors (checked w folder g)
    then loadColors w (colorPath w folder) (checked w folder g)
    else ([], Ok tt (checked w folder g)).
Proof.
  intros Hlen Hres. unfold InitSetting. fold (themeName w).
  destruct (Nat.eqb_spec (len (themeName w)) 0) as [Z|_]; [contradiction|].
  unfold bind at 1 2 3 4. unfold assign at 1 2 3. rewrite Hres.
  unfold checked, preference, colorPath, cssPath, assetsPath.
  unfold bind, assign, read, when, ret. simpl.
  destruct (ini.MustBool (ini.Key (settingSection w) "replace_colors") false);
  destruct (ini.MustBool (ini.Key (settingSection w) "inject_css") false);
  destruct (ini.MustBool (ini.Key (settingSection w) "overwrite_assets") false);
  simpl;
  destruct (Stat w (Join w [folder; "color.ini"]));
  destruct (Stat w (Join w [folder; "user.css"]));
  destruct (Stat w (Join w [folder; "assets"])); simpl;
  try reflexivity; destruct (loadColors w _ _) as [t r]; reflexivity.
Qed.

Lemma InitSetting_theme_missing (w : World) (g : Globals) (msg : string) :
  len (themeName w) ≠ 0%nat →
  (∀ g, getThemeFolder w (themeName w) g = ([PrintError msg], Exit 1)) →
  InitSetting w g = ([PrintError msg], Exit 1).
Proof.
  intros Hlen Hres. unfold InitSetting. fold (themeName w).
  destruct (Nat.eqb_spec (len (themeName w)) 0) as [Z|_]; [contradiction|].
  unfold bind at 1 2 3 4. unfold assign at 1 2 3. rewrite Hres. reflexivity.
Qed.

Lemma InsensitiveLoad_Some (w : World) (path : string) (f : ini.File) :
  InsensitiveLoad w path = Some f →
  Stat w path = true ∧
  ∃ src, ini_data (fs w) !! path = Some src ∧ f = ini.parse (ToLower w) true src.
Proof.
  unfold InsensitiveLoad. destruct (Stat w path); [|discriminate].
  destruct (ini_data (fs w) !! path) as [src|]; simpl; [|discriminate].
  intros [= <-]. eauto.
Qed.

Lemma loadColors_unreadable (w : World) (path : string) (g : Globals) :
  InsensitiveLoad w path = None →
  loadColors w path g =
    ([PrintError ("Cannot open file " ++ path)],
     Ok tt (set_replaceColors false (set_colorCfg None g))).
Proof. intros H. unfold loadColors. rewrite H. reflexivity. Qed.

Lemma loadColors_too_short (w : World) (path : string) (g : Globals) (f : ini.File) :
  InsensitiveLoad w path = Some f → (length (ini.Sections f) < 2)%nat →
  loadColors w path g =
    ([PrintError ("No section found in " ++ path)],
     Ok tt (set_replaceColors false (set_colorCfg (Some f) g))).
Proof.
  intros H Hlen. unfold loadColors. rewrite H.
  apply Nat.ltb_lt in Hlen. unfold bind, assign. simpl. rewrite Hlen. reflexivity.
Qed.

Lemma loadColors_select (w : World) (path : string) (g : Globals) (f : ini.File) :
  InsensitiveLoad w path = Some f → (2 ≤ length (ini.Sections f))%nat →
  loadColors w path g =
    ([], Ok tt (set_colorSection
                  (if (len (schemeName w) =? 0)%nat then ini.Sections f !! 1%nat
                   else match ini.GetSection (ToLower w) f (schemeName w) with
                        | None => ini.Sections f !! 1%nat
                        | Some schemeSection => Some schemeSection
                        end)
                  (set_colorCfg (Some f) g))).
Proof.
  intros H Hlen. unfold loadColors. rewrite H. fold (schemeName w).
  apply Nat.ltb_ge in Hlen. unfold bind, assign. simpl. rewrite Hlen.
  destruct (len (schemeName w) =? 0)%nat; [reflexivity|].
  destruct (ini.GetSection (ToLower w) f (schemeName w)); reflexivity.
Qed.

(** The selection path of [InitSetting] as one equation. *)
Lemma InitSetting_selection
  (w : World) (g : Globals) (folder : string) (f : ini.File) :
  len (themeName w) ≠ 0%nat →
  themeResolves w folder →
  preference w "replace_colors" = true →
  InsensitiveLoad w (colorPath w folder) = Some f →
  (2 ≤ length (ini.Sections f))%nat →
  ∃ g', InitSetting w g = ([], Ok tt g') ∧
        colorSection g' =
          if (len (schemeName w) =? 0)%nat then ini.Sections f !! 1%nat
          else match ini.GetSection (ToLower w) f (schemeName w) with
               | None => ini.Sections f !! 1%nat
               | Some schemeSection => Some schemeSection
               end.
Proof.
  intros Hname Hres Hpref Hload Hlen.
  destruct (InsensitiveLoad_Some _ _ _ Hload) as (Hstat & _).
  rewrite (InitSetting_theme w g folder Hname Hres).
  assert (Hrc : replaceColors (checked w folder g) = true)
    by (simpl; now rewrite Hpref, Hstat).
  rewrite Hrc, (loadColors_select _ _ _ _ Hload Hlen).
  eexists. split; reflexivity.
Qed.

(** ** Runs on the sample *)

Example sample_no_scheme :
  ∃ g, InitSetting (Sample.world (Sample.setting "") Sample.disk) zero = ([], Ok tt g) ∧
       colorSection g = Some (ini.mkSection "schemea" [("main_fg", "ffffff")]) ∧
       effective g =
         (true, true, false, "/cfg/Themes/Dark",
          Some (ini.mkSection "schemea" [("main_fg", "ffffff")])).
Proof. eexists. split; [vm_compute; reflexivity|]. split; reflexivity. Qed.

Example sample_scheme_other_case :
  ∃ g, InitSetting (Sample.world (Sample.setting "SCHEMEB") Sample.disk) zero
         = ([], Ok tt g) ∧
       colorSection g = Some (ini.mkSection "schemeb" [("main_fg", "000000")]).
Proof. eexists. split; [vm_compute; reflexivity|]. reflexivity. Qed.

Example sample_unknown_scheme :
  ∃ g, InitSetting (Sample.world (Sample.setting "Nonexistent") Sample.disk) zero
         = ([], Ok tt g) ∧
       colorSection g = Some (ini.mkSection "schemea" [("main_fg", "ffffff")]).
Proof. eexists. split; [vm_compute; reflexivity|]. reflexivity. Qed.

Example sample_single_section :
  ∃ g, InitSetting (Sample.world (Sample.setting "") Sample.single) zero
         = ([PrintError "No section found in /cfg/Themes/Dark/color.ini"], Ok tt g) ∧
       effective g = (false, true, false, "/cfg/Themes/Dark", None).
Proof. eexists. split; [vm_compute; reflexivity|]. reflexivity. Qed.

Example sample_missing_theme :
  InitSetting (Sample.world {[ "current_theme" := "Light" ]} Sample.disk) zero
    = ([PrintError ("Theme " ++ dq ++ "Light" ++ dq ++ " not found")], Exit 1).
Proof. vm_compute. reflexivity. Qed.

Example sample_watch :
  ∃ g, Watch (Sample.world (Sample.setting "") Sample.disk) false zero
         = ([], Ok [mkSubscription ["/cfg/Themes/Dark/color.ini";
                                     "/cfg/Themes/Dark/user.css"]
                                    false OnThemeFiles None] g).
Proof. eexists. vm_compute. reflexivity. Qed.

Example sample_watch_extensions :
  ∃ g, WatchExtensions (Sample.world (Sample.setting "") Sample.disk) false zero
         = ([PrintError ("Extension " ++ dq ++ "b.js" ++ dq ++ " not found.")],
            Ok (mkSubscription ["/cfg/Extensions/a.js"] false
                               (OnExtension "/opt/spotify/Apps/zlink") None) g).
Proof. eexists. vm_compute. reflexivity. Qed.

(** ** The properties of the specification *)



Local Arguments InitSetting : simpl never.

Lemma isValidForWatching_run (w : World) (g : Globals) :
  isValidForWatching w g =
    if IsModdable w (spotifyPath w) then ([], Ok true g)
    else ([PrintError ("You haven't applied. Run " ++ dq ++ "spicetify apply"
                         ++ dq ++ " once before entering watch mode.")],
          Ok false g).
Proof. unfold isValidForWatching. now destruct (IsModdable w (spotifyPath w)). Qed.

Lemma startDebugger_run (w : World) (liveUpdate : bool) (g : Globals) :
  when liveUpdate (startDebugger w) g =
    (debuggerTrace w liveUpdate, Ok tt (debugged w liveUpdate g)).
Proof.
  unfold debuggerTrace, debugged, when, startDebugger.
  destruct liveUpdate; [|reflexivity].
  unfold bind, assign, read, when. simpl.
  now destruct (len (GetDebuggerPath w) =? 0)%nat.
Qed.

Local Arguments startDebugger : simpl never.

(** [Watch] with no theme name and no theme folder from an earlier
    resolution: the process stops at one of its two checks. *)
Lemma Watch_no_theme (w : World) (g : Globals) (liveUpdate : bool) :
  len (themeName w) = 0%nat → len (themeFolder g) = 0%nat →
  Watch w liveUpdate g =
    if IsModdable w (spotifyPath w)
    then (debuggerTrace w liveUpdate ++
            [PrintError ("Config " ++ dq ++ "current_theme" ++ dq
                           ++ " is blank. No theme asset to watch.")],
          Exit 1)
    else ([PrintError ("You haven't applied. Run " ++ dq ++ "spicetify apply"
                         ++ dq ++ " once before entering watch mode.")],
          Exit 1).
Proof.
  intros Hname Hdir. unfold Watch. step isValidForWatching_run.
  destruct (IsModdable w (spotifyPath w)); simpl; [|reflexivity].
  step (InitSetting_no_theme w g Hname).
  step startDebugger_run.
  unfold bind at 1. unfold read at 1.
  assert (E : len (themeFolder (debugged w liveUpdate (disabled g))) = 0%nat)
    by (destruct liveUpdate; simpl; exact Hdir).
  rewrite E. reflexivity.
Qed.

(** C2. With an empty [current_theme], [InitSetting] leaves the three
    flags false whatever the raw preferences are, and [Watch], entered
    with the theme folder still unset, stops the process with status 1
    after reporting an error. *)
Theorem C2_no_theme_flags_false_and_exit
  (w : World) (g : Globals) (liveUpdate : bool) :
  len (themeName w) = 0%nat →
  (∃ g', InitSetting w g = ([], Ok tt g') ∧
         replaceColors g' = false ∧ injectCSS g' = false ∧
         overwriteAssets g' = false) ∧
  (themeFolder g = "" →
   ∃ t msg, Watch w liveUpdate g = (t ++ [PrintError msg], Exit 1)).
Proof.
  intros Hname. split.
  - exists (disabled g). rewrite (InitSetting_no_theme w g Hname). auto.
  - intros Hdir. rewrite (Watch_no_theme w g liveUpdate Hname)
      by (rewrite Hdir; reflexivity).
    destruct (IsModdable w (spotifyPath w)).
    + eexists _, _. reflexivity.
    + exists []. eexists. reflexivity.
Qed.

Lemma C2_no_theme_flags_false_and_exit_witness :
  let w := Sample.world Sample.no_theme Sample.disk in
  (∃ g', InitSetting w zero = ([], Ok tt g') ∧
         replaceColors g' = false ∧ injectCSS g' = false ∧
         overwriteAssets g' = false) ∧
  (themeFolder zero = "" →
   ∃ t msg, Watch w true zero = (t ++ [PrintError msg], Exit 1)).
Proof.
  apply (C2_no_theme_flags_false_and_exit
           (Sample.world Sample.no_theme Sample.disk) zero true).
  reflexivity.
Defined.

(** [loadColors] always returns, and touches only [colorCfg],
    [colorSection] and [replaceColors], which it can only clear. *)
Lemma loadColors_frame (w : World) (path : string) (g : Globals) :
  ∃ t g', loadColors w path g = (t, Ok tt g') ∧
    themeFolder g' = themeFolder g ∧ injectCSS g' = injectCSS g ∧
    overwriteAssets g' = overwriteAssets g ∧
    debuggerURL g' = debuggerURL g ∧ autoReloadFunc g' = autoReloadFunc g ∧
    (replaceColors g' = true → replaceColors g = true).
Proof.
  destruct (InsensitiveLoad w path) as [f|] eqn:L.
  - destruct (Nat.lt_ge_cases (length (ini.Sections f)) 2) as [Hlen|Hlen].
    + rewrite (loadColors_too_short _ _ _ _ L Hlen). eexists _, _.
      split; [reflexivity|]. simpl. repeat split; auto. discriminate.
    + rewrite (loadColors_select _ _ _ _ L Hlen). eexists _, _.
      split; [reflexivity|]. simpl. repeat split; auto.
  - rewrite (loadColors_unreadable _ _ _ L). eexists _, _.
    split; [reflexivity|]. simpl. repeat split; auto. discriminate.
Qed.

Lemma checked_flags_sound (w : World) (g g' : Globals) (folder : string) :
  themeFolder g' = folder →
  injectCSS g' = injectCSS (checked w folder g) →
  overwriteAssets g' = overwriteAssets (checked w folder g) →
  (replaceColors g' = true → replaceColors (checked w folder g) = true) →
  (replaceColors g' = true →
   preference w "replace_colors" = true ∧
   Stat w (colorPath w (themeFolder g')) = true) ∧
  (injectCSS g' = true →
   preference w "inject_css" = true ∧
   Stat w (cssPath w (themeFolder g')) = true) ∧
  (overwriteAssets g' = true →
   preference w "overwrite_assets" = true ∧
   Stat w (assetsPath w (themeFolder g')) = true) ∧
  (Stat w (assetsPath w (themeFolder g')) = false → overwriteAssets g' = false).
Proof.
  intros Hdir Hcss Hoa Hrc. rewrite Hdir, Hcss, Hoa. simpl.
  split; [|split; [|split]].
  - intros H. apply Hrc in H. simpl in H. now apply andb_true_iff in H.
  - intros H. now apply andb_true_iff in H.
  - intros H. now apply andb_true_iff in H.
  - intros H. rewrite H. apply andb_false_r.
Qed.

(** C3. After [InitSetting] ran with a theme name, a flag is true only if
    its raw preference is on and its resource exists under the theme
    folder; without an assets directory [overwriteAssets] is false. *)
Theorem C3_flag_needs_preference_and_resource
  (w : World) (g : Globals) (folder : string) :
  len (themeName w) ≠ 0%nat →
  themeResolves w folder →
  ∃ t g',
    InitSetting w g = (t, Ok tt g') ∧ themeFolder g' = folder ∧
    (replaceColors g' = true →
     preference w "replace_colors" = true ∧
     Stat w (colorPath w (themeFolder g')) = true) ∧
    (injectCSS g' = true →
     preference w "inject_css" = true ∧
     Stat w (cssPath w (themeFolder g')) = true) ∧
    (overwriteAssets g' = true →
     preference w "overwrite_assets" = true ∧
     Stat w (assetsPath w (themeFolder g')) = true) ∧
    (Stat w (assetsPath w (themeFolder g')) = false → overwriteAssets g' = false).
Proof.
  intros Hname Hres. rewrite (InitSetting_theme w g folder Hname Hres).
  destruct (replaceColors (checked w folder g)) eqn:Hrc.
  - destruct (loadColors_frame w (colorPath w folder) (checked w folder g))
      as (t & g' & -> & Hdir & Hcss & Hoa & _ & _ & Hrc').
    exists t, g'. split; [reflexivity|]. split; [exact Hdir|].
    apply (checked_flags_sound w g g' folder); auto.
  - eexists _, _. split; [reflexivity|]. split; [reflexivity|].
    apply (checked_flags_sound w g _ folder); auto.
Qed.

Lemma C3_flag_needs_preference_and_resource_witness :
  let w := Sample.world (Sample.setting "") Sample.disk in
  ∃ t g',
    InitSetting w zero = (t, Ok tt g') ∧ themeFolder g' = "/cfg/Themes/Dark" ∧
    (replaceColors g' = true →
     preference w "replace_colors" = true ∧
     Stat w (colorPath w (themeFolder g')) = true) ∧
    (injectCSS g' = true →
     preference w "inject_css" = true ∧
     Stat w (cssPath w (themeFolder g')) = true) ∧
    (overwriteAssets g' = true →
     preference w "overwrite_assets" = true ∧
     Stat w (assetsPath w (themeFolder g')) = true) ∧
    (Stat w (assetsPath w (themeFolder g')) = false → overwriteAssets g' = false).
Proof.
  apply (C3_flag_needs_preference_and_resource
           (Sample.world (Sample.setting "") Sample.disk) zero "/cfg/Themes/Dark").
  - vm_compute. discriminate.
  - intros g. reflexivity.
Defined.

(** C4. When the color file is there but cannot be loaded, or loads with
    fewer than two sections, [InitSetting] reports one error, clears
    [replaceColors] and returns; the other two flags are what preference
    and resource make them. *)
Theorem C4_unusable_color_file
  (w : World) (g : Globals) (folder : string) :
  len (themeName w) ≠ 0%nat →
  themeResolves w folder →
  preference w "replace_colors" = true →
  Stat w (colorPath w folder) = true →
  (InsensitiveLoad w (colorPath w folder) = None ∨
   ∃ f, InsensitiveLoad w (colorPath w folder) = Some f ∧
        (length (ini.Sections f) < 2)%nat) →
  ∃ msg g',
    InitSetting w g = ([PrintError msg], Ok tt g') ∧
    replaceColors g' = false ∧
    injectCSS g' = (preference w "inject_css" && Stat w (cssPath w folder)) ∧
    overwriteAssets g' =
      (preference w "overwrite_assets" && Stat w (assetsPath w folder)) ∧
    themeFolder g' = folder.
Proof.
  intros Hname Hres Hpref Hstat Hbad.
  rewrite (InitSetting_theme w g folder Hname Hres).
  assert (Hrc : replaceColors (checked w folder g) = true)
    by (simpl; now rewrite Hpref, Hstat).
  rewrite Hrc.
  destruct Hbad as [L|(f & L & Hlen)].
  - rewrite (loadColors_unreadable _ _ _ L). eexists _, _.
    split; [reflexivity|]. simpl. auto.
  - rewrite (loadColors_too_short _ _ _ _ L Hlen). eexists _, _.
    split; [reflexivity|]. simpl. auto.
Qed.

Lemma C4_unusable_color_file_witness :
  let w := Sample.world (Sample.setting "") Sample.broken in
  ∃ msg g',
    InitSetting w zero = ([PrintError msg], Ok tt g') ∧
    replaceColors g' = false ∧
    injectCSS g' =
      (preference w "inject_css" && Stat w (cssPath w "/cfg/Themes/Dark")) ∧
    overwriteAssets g' =
      (preference w "overwrite_assets" && Stat w (assetsPath w "/cfg/Themes/Dark")) ∧
    themeFolder g' = "/cfg/Themes/Dark".
Proof.
  apply (C4_unusable_color_file
           (Sample.world (Sample.setting "") Sample.broken) zero "/cfg/Themes/Dark").
  - vm_compute. discriminate.
  - intros g. reflexivity.
  - reflexivity.
  - reflexivity.
  - left. reflexivity.
Defined.

(** The loop of [WatchExtensions]: one warning per name that is not
    found, the found paths appended in order, and no way to stop. *)
Lemma resolveExtensions_run (w : World) (names acc : list string) (g : Globals) :
  resolveExtensions w names acc g =
    (map (fun v => PrintError ("Extension " ++ dq ++ v ++ dq ++ " not found."))
         (filter (fun v => getExtensionPath w v = None) names),
     Ok (acc ++ omap (getExtensionPath w) names) g).
Proof.
  revert acc. induction names as [|v names IH]; intros acc; simpl.
  - unfold ret. now rewrite app_nil_r.
  - rewrite filter_cons. destruct (getExtensionPath w v) as [extPath|] eqn:E.
    + rewrite decide_False by discriminate. rewrite IH.
      now rewrite <- app_assoc.
    + rewrite decide_True by reflexivity. unfold bind, emit. rewrite IH.
      reflexivity.
Qed.

(** C5. [WatchExtensions], past its validity check, resolves every
    configured name, prints one warning for each name that is not found
    and goes on; it stops the process exactly when no name was found, and
    otherwise hands the watcher the found paths, in order and nothing
    else. *)
Theorem C5_extensions_found_subset (w : World) (g : Globals) (liveUpdate : bool) :
  IsModdable w (spotifyPath w) = true →
  let found := omap (getExtensionPath w) (extensions w) in
  let warnings :=
    map (fun v => PrintError ("Extension " ++ dq ++ v ++ dq ++ " not found."))
        (filter (fun v => getExtensionPath w v = None) (extensions w)) in
  ∃ t r,
    WatchExtensions w liveUpdate g = (debuggerTrace w liveUpdate ++ warnings ++ t, r) ∧
    (found = [] → t = [PrintError "No extension to watch."] ∧ r = Exit 1) ∧
    (found ≠ [] → t = [] ∧ ∃ sub g', r = Ok sub g' ∧ paths sub = found) ∧
    (r = Exit 1 ↔ found = []).
Proof.
  intros Hvalid found warnings. unfold WatchExtensions.
  step isValidForWatching_run. rewrite Hvalid. simpl.
  step startDebugger_run. step resolveExtensions_run. simpl.
  fold found. fold warnings.
  destruct found as [|p found'] eqn:F; simpl.
  - eexists _, _. split; [reflexivity|]. repeat split; auto; congruence.
  - unfold bind, read, ret. simpl. exists []. eexists.
    split; [reflexivity|]. split; [congruence|]. split.
    + intros _. split; [reflexivity|]. eexists _, _. split; reflexivity.
    + split; congruence.
Qed.

Lemma C5_extensions_found_subset_witness :
  let w := Sample.world (Sample.setting "") Sample.disk in
  let found := omap (getExtensionPath w) (extensions w) in
  let warnings :=
    map (fun v => PrintError ("Extension " ++ dq ++ v ++ dq ++ " not found."))
        (filter (fun v => getExtensionPath w v = None) (extensions w)) in
  ∃ t r,
    WatchExtensions w true zero = (debuggerTrace w true ++ warnings ++ t, r) ∧
    (found = [] → t = [PrintError "No extension to watch."] ∧ r = Exit 1) ∧
    (found ≠ [] → t = [] ∧ ∃ sub g', r = Ok sub g' ∧ paths sub = found) ∧
    (r = Exit 1 ↔ found = []).
Proof.
  apply (C5_extensions_found_subset
           (Sample.world (Sample.setting "") Sample.disk) zero true).
  reflexivity.
Defined.

(** The reload callback always returns: it makes one attempt, records
    the url [utils.SendReload] leaves, and prints the outcome. *)
Lemma call_run (w : World) (g : Globals) :
  call w ReloadSpotify g =
    (SendReload (debuggerURL g) ::
       (if snd (DoSendReload w (debuggerURL g))
        then [PrintSuccess "Spotify reloaded"]
        else [PrintError "Could not Reload Spotify";
              PrintInfo ("Close Spotify and run " ++ dq ++ "spicetify watch -e -l"
                           ++ dq ++ " again.")]),
     Ok tt (set_debuggerURL (fst (DoSendReload w (debuggerURL g))) g)).
Proof.
  unfold call, bind, read, emit, assign. simpl.
  destruct (DoSendReload w (debuggerURL g)) as [url' ok]. simpl.
  destruct ok; reflexivity.
Qed.

(** C6. A reload attempt that fails only prints: the callback returns,
    stays bound, and its next invocation, in whatever world the next
    change event meets, makes a new attempt whose outcome is its own. *)
Theorem C6_failed_reload_only_reported (w1 w2 : World) (g : Globals) :
  snd (DoSendReload w1 (debuggerURL g)) = false →
  ∃ g1 g2,
    call w1 ReloadSpotify g =
      ([SendReload (debuggerURL g);
        PrintError "Could not Reload Spotify";
        PrintInfo ("Close Spotify and run " ++ dq ++ "spicetify watch -e -l"
                     ++ dq ++ " again.")],
       Ok tt g1) ∧
    autoReloadFunc g1 = autoReloadFunc g ∧
    call w2 ReloadSpotify g1 =
      (SendReload (debuggerURL g1) ::
         (if snd (DoSendReload w2 (debuggerURL g1))
          then [PrintSuccess "Spotify reloaded"]
          else [PrintError "Could not Reload Spotify";
                PrintInfo ("Close Spotify and run " ++ dq ++ "spicetify watch -e -l"
                             ++ dq ++ " again.")]),
       Ok tt g2).
Proof.
  intros Hfail. eexists _, _. rewrite !call_run, Hfail.
  split; [reflexivity|]. split; reflexivity.
Qed.

Lemma C6_failed_reload_only_reported_witness :
  let w := Sample.world (Sample.setting "") Sample.disk in
  ∃ g1 g2,
    call w ReloadSpotify zero =
      ([SendReload (debuggerURL zero);
        PrintError "Could not Reload Spotify";
        PrintInfo ("Close Spotify and run " ++ dq ++ "spicetify watch -e -l"
                     ++ dq ++ " again.")],
       Ok tt g1) ∧
    autoReloadFunc g1 = autoReloadFunc zero ∧
    call w ReloadSpotify g1 =
      (SendReload (debuggerURL g1) ::
         (if snd (DoSendReload w (debuggerURL g1))
          then [PrintSuccess "Spotify reloaded"]
          else [PrintError "Could not Reload Spotify";
                PrintInfo ("Close Spotify and run " ++ dq ++ "spicetify watch -e -l"
                             ++ dq ++ " again.")]),
       Ok tt g2).
Proof.
  apply (C6_failed_reload_only_reported
           (Sample.world (Sample.setting "") Sample.disk)
           (Sample.world (Sample.setting "") Sample.disk) zero).
  reflexivity.
Defined.

(** In the dispatcher of the specification a change whose handler
    returned is followed by a reload attempt, and a failed attempt leaves
    the loop running: the next event is dispatched, with an attempt of its
    own. *)
Lemma watchLoop_survives_failed_reload
  (sub : Subscription) (w1 w2 : World) (p1 p2 : string) (e1 e2 : option string)
  (g g1 g2 : Globals) (t1 t2 : list Event) :
  onReload sub = Some ReloadSpotify →
  react w1 (onChange sub) p1 e1 g = (t1, Ok tt g1) →
  snd (DoSendReload w1 (debuggerURL g1)) = false →
  react w2 (onChange sub) p2 e2
        (set_debuggerURL (fst (DoSendReload w1 (debuggerURL g1))) g1) = (t2, Ok tt g2) →
  ∃ t g',
    watchLoop sub [(w1, p1, e1); (w2, p2, e2)] g =
      (t1 ++ [SendReload (debuggerURL g1);
              PrintError "Could not Reload Spotify";
              PrintInfo ("Close Spotify and run " ++ dq ++ "spicetify watch -e -l"
                           ++ dq ++ " again.")]
          ++ t2 ++ SendReload (debuggerURL g2) :: t,
       Ok tt g').
Proof.
  intros Hbound Hr1 Hfail Hr2. simpl. unfold dispatch. rewrite Hbound.
  unfold bind. rewrite Hr1, call_run, Hfail, Hr2, call_run. simpl.
  eexists _, _. rewrite !app_nil_r. rewrite <- !app_assoc. simpl. reflexivity.
Qed.

(** C7. A non-empty [SPICETIFY_CONFIG] is the folder [getSpicetifyFolder]
    returns, whatever the platform and the other variables are, and the
    folder exists when it returns: an existing one is left as it is, an
    absent one is created. *)
Theorem C7_config_override_verbatim (w : World) (v : string) :
  environ w !! "SPICETIFY_CONFIG" = Some v →
  len v ≠ 0%nat →
  v ∈ nodes (fs w) ∨ v ∉ mkdir_fails (fs w) →
  ∃ f',
    getSpicetifyFolder w = Done v f' ∧
    v ∈ nodes f' ∧
    (v ∈ nodes (fs w) → f' = fs w) ∧
    (v ∉ nodes (fs w) → nodes f' = {[v]} ∪ nodes (fs w)) ∧
    ini_data f' = ini_data (fs w).
Proof.
  intros Henv Hlen Hcan.
  assert (Hpath : spicetifyFolderPath w = v).
  { unfold spicetifyFolderPath, LookupEnv. rewrite Henv. simpl.
    destruct (Nat.ltb_spec 0 (len v)); [reflexivity|lia]. }
  unfold getSpicetifyFolder, CheckExistAndCreate. rewrite Hpath.
  destruct (decide (v ∈ nodes (fs w))) as [Hin|Hout].
  - rewrite bool_decide_eq_true_2 by exact Hin.
    exists (fs w). repeat split; auto. contradiction.
  - rewrite bool_decide_eq_false_2 by exact Hout.
    destruct Hcan as [Hin|Hok]; [contradiction|].
    rewrite bool_decide_eq_false_2 by exact Hok.
    eexists. split; [reflexivity|]. simpl. repeat split; auto.
    + set_solver.
    + contradiction.
Qed.

Lemma C7_config_override_verbatim_witness :
  let w := Sample.world (Sample.setting "") Sample.disk in
  ∃ f',
    getSpicetifyFolder w = Done "/cfg" f' ∧
    "/cfg" ∈ nodes f' ∧
    ("/cfg" ∈ nodes (fs w) → f' = fs w) ∧
    ("/cfg" ∉ nodes (fs w) → nodes f' = {["/cfg"]} ∪ nodes (fs w)) ∧
    ini_data f' = ini_data (fs w).
Proof.
  apply (C7_config_override_verbatim
           (Sample.world (Sample.setting "") Sample.disk) "/cfg").
  - reflexivity.
  - vm_compute. discriminate.
  - right. vm_compute. discriminate.
Defined.

Lemma replaceColors_checked (w : World) (folder : string) (g : Globals) :
  replaceColors (checked w folder g) =
    preference w "replace_colors" && Stat w (colorPath w folder).
Proof. reflexivity. Qed.

(** Whether [InitSetting] returns, and what it prints, does not depend on
    the variables it starts from. *)
Lemma InitSetting_outcome (w : World) :
  (∃ t, ∀ g, InitSetting w g = (t, Exit 1)) ∨
  (∃ t, ∀ g, ∃ g', InitSetting w g = (t, Ok tt g')).
Proof.
  destruct (Nat.eq_dec (len (themeName w)) 0) as [Z|NZ].
  - right. exists []. intros g. eexists. apply (InitSetting_no_theme w g Z).
  - destruct (getThemeFolder_cases w (themeName w))
      as [(folder & _ & Hres)|(msg & Hmiss)].
    + right.
      destruct (preference w "replace_colors" && Stat w (colorPath w folder)) eqn:Hrc.
      * destruct (InsensitiveLoad w (colorPath w folder)) as [f|] eqn:L.
        -- destruct (Nat.lt_ge_cases (length (ini.Sections f)) 2) as [Hlen|Hlen].
           ++ eexists. intros g. rewrite (InitSetting_theme w g folder NZ Hres).
              rewrite replaceColors_checked, Hrc.
              rewrite (loadColors_too_short _ _ _ _ L Hlen). eauto.
           ++ eexists. intros g. rewrite (InitSetting_theme w g folder NZ Hres).
              rewrite replaceColors_checked, Hrc.
              rewrite (loadColors_select _ _ _ _ L Hlen). eauto.
        -- eexists. intros g. rewrite (InitSetting_theme w g folder NZ Hres).
           rewrite replaceColors_checked, Hrc.
           rewrite (loadColors_unreadable _ _ _ L). eauto.
      * exists []. intros g. rewrite (InitSetting_theme w g folder NZ Hres).
        rewrite replaceColors_checked, Hrc. eauto.
    + left. exists [PrintError msg]. intros g.
      apply (InitSetting_theme_missing w g msg NZ Hmiss).
Qed.

(** C8, as the code has it.  In one world a second [InitSetting] changes
    nothing and prints the same.  From any other starting variables the
    same world gives the same trace and the same three flags, the same
    theme folder when a theme is configured and the same color section
    when [replaceColors] resolves to true; what the run does not assign
    (theme folder without a theme name, color section without color
    replacement) is what the variables held before. *)
Theorem C8_resolution_idempotent
  (w : World) (g g1 : Globals) (t : list Event) :
  InitSetting w g = (t, Ok tt g1) →
  InitSetting w g1 = (t, Ok tt g1) ∧
  ∀ g', ∃ g1',
    InitSetting w g' = (t, Ok tt g1') ∧
    replaceColors g1' = replaceColors g1 ∧
    injectCSS g1' = injectCSS g1 ∧
    overwriteAssets g1' = overwriteAssets g1 ∧
    (len (themeName w) ≠ 0%nat → themeFolder g1' = themeFolder g1) ∧
    (replaceColors g1 = true → colorSection g1' = colorSection g1) ∧
    (len (themeName w) = 0%nat → themeFolder g1' = themeFolder g') ∧
    (replaceColors g1 = false → colorSection g1' = colorSection g').
Proof.
  intros Hrun.
  destruct (Nat.eq_dec (len (themeName w)) 0) as [Z|NZ].
  { rewrite (InitSetting_no_theme w g Z) in Hrun. injection Hrun as <- <-.
    split; [now rewrite (InitSetting_no_theme w _ Z)|].
    intros g'. exists (disabled g'). rewrite (InitSetting_no_theme w g' Z).
    simpl. repeat split; auto; try contradiction; discriminate. }
  destruct (getThemeFolder_cases w (themeName w))
    as [(folder & _ & Hres)|(msg & Hmiss)];
    [|rewrite (InitSetting_theme_missing w g msg NZ Hmiss) in Hrun; discriminate].
  pose proof (InitSetting_theme w g folder NZ Hres) as Eg.
  rewrite replaceColors_checked in Eg.
  assert (Eany : ∀ g0, InitSetting w g0 =
            if preference w "replace_colors" && Stat w (colorPath w folder)
            then loadColors w (colorPath w folder) (checked w folder g0)
            else ([], Ok tt (checked w folder g0)))
    by (intros g0; apply (InitSetting_theme w g0 folder NZ Hres)).
  rewrite Eany in Hrun.
  destruct (preference w "replace_colors" && Stat w (colorPath w folder)) eqn:Hrc.
  - destruct (InsensitiveLoad w (colorPath w folder)) as [f|] eqn:L.
    + destruct (Nat.lt_ge_cases (length (ini.Sections f)) 2) as [Hlen|Hlen].
      * rewrite (loadColors_too_short _ _ _ _ L Hlen) in Hrun.
        injection Hrun as <- <-. split.
        -- rewrite Eany, (loadColors_too_short _ _ _ _ L Hlen). reflexivity.
        -- intros g'. eexists. rewrite Eany, (loadColors_too_short _ _ _ _ L Hlen).
           split; [reflexivity|]. simpl.
           repeat split; auto; try contradiction; discriminate.
      * rewrite (loadColors_select _ _ _ _ L Hlen) in Hrun.
        injection Hrun as <- <-. split.
        -- rewrite Eany, (loadColors_select _ _ _ _ L Hlen). reflexivity.
        -- intros g'. eexists. rewrite Eany, (loadColors_select _ _ _ _ L Hlen).
           split; [reflexivity|]. simpl. rewrite Hrc.
           repeat split; auto; try contradiction; discriminate.
    + rewrite (loadColors_unreadable _ _ _ L) in Hrun.
      injection Hrun as <- <-. split.
      * rewrite Eany, (loadColors_unreadable _ _ _ L). reflexivity.
      * intros g'. eexists. rewrite Eany, (loadColors_unreadable _ _ _ L).
        split; [reflexivity|]. simpl.
        repeat split; auto; try contradiction; discriminate.
  - injection Hrun as <- <-. split.
    + rewrite Eany. reflexivity.
    + intros g'. eexists. rewrite Eany. split; [reflexivity|]. simpl.
      rewrite Hrc. repeat split; auto; try contradiction; discriminate.
Qed.

Lemma C8_resolution_idempotent_witness :
  let w := Sample.world (Sample.setting "") Sample.disk in
  InitSetting w Sample.previous = ([], Ok tt Sample.previous) ∧
  ∀ g', ∃ g1',
    InitSetting w g' = ([], Ok tt g1') ∧
    replaceColors g1' = replaceColors Sample.previous ∧
    injectCSS g1' = injectCSS Sample.previous ∧
    overwriteAssets g1' = overwriteAssets Sample.previous ∧
    (len (themeName w) ≠ 0%nat → themeFolder g1' = themeFolder Sample.previous) ∧
    (replaceColors Sample.previous = true →
     colorSection g1' = colorSection Sample.previous) ∧
    (len (themeName w) = 0%nat → themeFolder g1' = themeFolder g') ∧
    (replaceColors Sample.previous = false → colorSection g1' = colorSection g').
Proof.
  apply (C8_resolution_idempotent
           (Sample.world (Sample.setting "") Sample.disk) zero Sample.previous []).
  reflexivity.
Defined.

(** C8 as stated fails: in one and the same world, the world of the
    sample after its color file was removed, [InitSetting] resolves a
    different color section depending on what an earlier resolution
    left in the variables. *)
Lemma C8_depends_on_previous_value :
  let w := Sample.world (Sample.setting "") Sample.no_colors in
  ∃ g1 g2,
    InitSetting w zero = ([], Ok tt g1) ∧
    InitSetting w Sample.previous = ([], Ok tt g2) ∧
    colorSection g1 = None ∧
    colorSection g2 = Some (ini.mkSection "schemea" [("main_fg", "ffffff")]) ∧
    effective g1 ≠ effective g2.
Proof.
  eexists _, _. split; [vm_compute; reflexivity|].
  split; [vm_compute; reflexivity|].
  split; [reflexivity|]. split; [reflexivity|].
  vm_compute. discriminate.
Qed.

(** C9. The configured scheme name is matched without regard to letter
    case, for every block but one headed exactly [[DEFAULT]]: when a block
    of the color file bears the configured name up to case and its header
    is not [DefaultSection] as written, [InitSetting] selects the section
    the parser made for that block, the only section of the file with
    that name, and every key of the block is a key of it. *)
Theorem C9_scheme_match_ignores_case
  (w : World) (g : Globals) (folder : string) (src : ini.Source)
  (blk : ini.Section) :
  len (themeName w) ≠ 0%nat →
  themeResolves w folder →
  preference w "replace_colors" = true →
  Stat w (colorPath w folder) = true →
  ini_data (fs w) !! colorPath w folder = Some src →
  (2 ≤ length (ini.Sections (ini.parse (ToLower w) true src)))%nat →
  len (schemeName w) ≠ 0%nat →
  blk ∈ ini.blocks src →
  ToLower w (ini.Name blk) = ToLower w (schemeName w) →
  ini.Name blk ≠ ini.DefaultSection →
  selectsBlock w g src blk ∧
  ini.sectionName (ToLower w) true (ini.Name blk) = ToLower w (schemeName w).
Proof.
  intros Hname Hres Hpref Hstat Hsrc Hlen Hscheme Hblk Hcase Hdef.
  assert (Hstored : ini.sectionName (ToLower w) true (ini.Name blk) = ToLower w (schemeName w)).
  { unfold ini.sectionName.
    destruct (String.eqb_spec (ini.Name blk) ini.DefaultSection) as [E|_];
      [contradiction|exact Hcase]. }
  split; [|exact Hstored].
  assert (Hload : InsensitiveLoad w (colorPath w folder) = Some (ini.parse (ToLower w) true src))
    by (unfold InsensitiveLoad; now rewrite Hstat, Hsrc).
  pose proof (parse_names (ToLower w) true src blk Hblk) as Hin.
  apply list_elem_of_fmap in Hin as (s & Hs & Hin).
  destruct (InitSetting_selection w g folder _ Hname Hres Hpref Hload Hlen) as [g' [Hrun Hsel]].
  exists g', s. split; [exact Hrun|].
  assert (Hget : ini.GetSection (ToLower w) (ini.parse (ToLower w) true src) (schemeName w) = Some s).
  { apply GetSection_insensitive; [exact Hscheme|exact Hin|].
    now rewrite <- Hs. }
  rewrite Hsel, Hget.
  destruct (Nat.eqb_spec (len (schemeName w)) 0) as [Z|_]; [contradiction|].
  assert (Huniq : ∀ s', s' ∈ ini.Sections (ini.parse (ToLower w) true src) →
                        ini.Name s' = ini.Name s → s' = s).
  { intros s' Hin' E. eapply name_unique; eauto. apply parse_NoDup. }
  repeat split; auto.
  intros k Hk.
  destruct (parse_keys (ToLower w) true src blk k Hblk Hk) as (x & Hx & Hnx & Hkx).
  rewrite <- (Huniq x Hx); [exact Hkx|]. now rewrite Hnx.
Qed.

Lemma C9_scheme_match_ignores_case_witness :
  let w := Sample.world (Sample.setting "SCHEMEB") Sample.disk in
  let blk := ini.mkSection "SchemeB" [("main_fg", "000000")] in
  selectsBlock w zero Sample.colors blk ∧
  ini.sectionName (ToLower w) true (ini.Name blk) = ToLower w (schemeName w).
Proof.
  apply (C9_scheme_match_ignores_case
           (Sample.world (Sample.setting "SCHEMEB") Sample.disk) zero
           "/cfg/Themes/Dark" Sample.colors
           (ini.mkSection "SchemeB" [("main_fg", "000000")])).
  - vm_compute. discriminate.
  - intros g. reflexivity.
  - reflexivity.
  - reflexivity.
  - reflexivity.
  - vm_compute. lia.
  - vm_compute. discriminate.
  - apply list_elem_of_In. simpl. auto.
  - reflexivity.
  - vm_compute. discriminate.
Defined.

(** C9, the block it fails for.  The color file has a block headed
    [[DEFAULT]] and [color_scheme] is [Default]: the two names differ in
    letter case only, yet the parser keeps the block under [DEFAULT],
    beside the default section it created itself under [default], and
    [GetSection] asks for [default].  [InitSetting] selects that empty
    section, not the block's. *)
Lemma C9_default_block_not_selected :
  let w := Sample.world (Sample.setting "Default") Sample.default_block in
  let blk := ini.mkSection "DEFAULT" [("main_fg", "111111")] in
  (len (themeName w) ≠ 0%nat ∧
   themeResolves w "/cfg/Themes/Dark" ∧
   preference w "replace_colors" = true ∧
   Stat w (colorPath w "/cfg/Themes/Dark") = true ∧
   ini_data (fs w) !! colorPath w "/cfg/Themes/Dark" = Some Sample.shadowed ∧
   (2 ≤ length (ini.Sections (ini.parse (ToLower w) true Sample.shadowed)))%nat ∧
   len (schemeName w) ≠ 0%nat ∧
   blk ∈ ini.blocks Sample.shadowed ∧
   ToLower w (ini.Name blk) = ToLower w (schemeName w)) ∧
  ini.Sections (ini.parse (ToLower w) true Sample.shadowed)
    = [ ini.mkSection "default" [];
        ini.mkSection "DEFAULT" [("main_fg", "111111")];
        ini.mkSection "schemea" [("main_fg", "ffffff")];
        ini.mkSection "schemeb" [("main_fg", "000000")] ] ∧
  (∃ g', InitSetting w zero = ([], Ok tt g') ∧
         colorSection g' = Some (ini.mkSection "default" [])) ∧
  ¬ selectsBlock w zero Sample.shadowed blk.
Proof.
  intros w blk.
  assert (Hrun : ∃ g', InitSetting w zero = ([], Ok tt g') ∧
                       colorSection g' = Some (ini.mkSection "default" [])).
  { eexists. split; vm_compute; reflexivity. }
  split.
  { split; [vm_compute; discriminate|]. split; [intros g; reflexivity|].
    split; [reflexivity|]. split; [reflexivity|]. split; [reflexivity|].
    split; [vm_compute; lia|]. split; [vm_compute; discriminate|].
    split; [apply list_elem_of_In; simpl; auto|reflexivity]. }
  split; [reflexivity|]. split; [exact Hrun|].
  destruct Hrun as (g0 & Hrun & Hsel0).
  intros (g' & s & Hrun' & Hsel & _ & Hn & _).
  rewrite Hrun in Hrun'. injection Hrun' as <-.
  rewrite Hsel0 in Hsel. injection Hsel as <-.
  vm_compute in Hn. discriminate.
Qed.

(** C10. With an empty [current_theme], [InitSetting] prints nothing,
    returns, and changes nothing but the three flags; a theme folder that
    was unset stays unset, and [Watch] then stops the process. *)
Theorem C10_no_theme_frame (w : World) (g : Globals) :
  len (themeName w) = 0%nat →
  ∃ g',
    InitSetting w g = ([], Ok tt g') ∧
    replaceColors g' = false ∧ injectCSS g' = false ∧ overwriteAssets g' = false ∧
    themeFolder g' = themeFolder g ∧
    colorCfg g' = colorCfg g ∧
    colorSection g' = colorSection g ∧
    debuggerURL g' = debuggerURL g ∧
    autoReloadFunc g' = autoReloadFunc g ∧
    (len (themeFolder g) = 0%nat →
     len (themeFolder g') = 0%nat ∧
     ∀ liveUpdate, ∃ t, Watch w liveUpdate g = (t, Exit 1)).
Proof.
  intros Hname. exists (disabled g).
  rewrite (InitSetting_no_theme w g Hname). simpl.
  repeat (split; [reflexivity|]).
  intros Hdir. split; [exact Hdir|]. intros liveUpdate.
  rewrite (Watch_no_theme w g liveUpdate Hname Hdir).
  destruct (IsModdable w (spotifyPath w)); eexists; reflexivity.
Qed.

Lemma C10_no_theme_frame_witness :
  let w := Sample.world Sample.no_theme Sample.disk in
  ∃ g',
    InitSetting w zero = ([], Ok tt g') ∧
    replaceColors g' = false ∧ injectCSS g' = false ∧ overwriteAssets g' = false ∧
    themeFolder g' = themeFolder zero ∧
    colorCfg g' = colorCfg zero ∧
    colorSection g' = colorSection zero ∧
    debuggerURL g' = debuggerURL zero ∧
    autoReloadFunc g' = autoReloadFunc zero ∧
    (len (themeFolder zero) = 0%nat →
     len (themeFolder g') = 0%nat ∧
     ∀ liveUpdate, ∃ t, Watch w liveUpdate zero = (t, Exit 1)).
Proof.
  apply (C10_no_theme_frame (Sample.world Sample.no_theme Sample.disk) zero).
  reflexivity.
Defined.

(** * Further properties of the code *)

(** ** [getThemeFolder] and [InitSetting] *)

Lemma themeResolves_user (w : World) :
  Stat w (userTheme w) = true → themeResolves w (userTheme w).
Proof.
  intros H g. unfold getThemeFolder. fold (userTheme w). now rewrite H.
Qed.

Lemma themeResolves_bundled (w : World) :
  Stat w (userTheme w) = false → Stat w (bundledTheme w) = true →
  themeResolves w (bundledTheme w).
Proof.
  intros H1 H2 g. unfold getThemeFolder. fold (userTheme w). rewrite H1.
  fold (bundledTheme w). now rewrite H2.
Qed.

Lemma getThemeFolder_missing (w : World) (g : Globals) :
  Stat w (userTheme w) = false → Stat w (bundledTheme w) = false →
  getThemeFolder w (themeName w) g =
    ([PrintError ("Theme " ++ dq ++ themeName w ++ dq ++ " not found")], Exit 1).
Proof.
  intros H1 H2. unfold getThemeFolder. fold (userTheme w). rewrite H1.
  fold (bundledTheme w). now rewrite H2.
Qed.

(** [InitSetting] returns whenever the theme folder resolves, with that
    folder in [themeFolder]. *)
Lemma InitSetting_resolved (w : World) (g : Globals) (folder : string) :
  len (themeName w) ≠ 0%nat → themeResolves w folder →
  ∃ t g', InitSetting w g = (t, Ok tt g') ∧ themeFolder g' = folder.
Proof.
  intros Hname Hres. rewrite (InitSetting_theme w g folder Hname Hres).
  destruct (replaceColors (checked w folder g)).
  - destruct (loadColors_frame w (colorPath w folder) (checked w folder g))
      as (t & g' & -> & Hdir & _). eauto.
  - eauto.
Qed.

(** X1. A theme in the user's themes folder is the one [InitSetting]
    uses, whether or not a bundled theme of that name exists; the bundled
    one is used only when the user's folder has none. *)
Theorem InitSetting_user_theme_shadows_bundled (w : World) (g : Globals) :
  len (themeName w) ≠ 0%nat →
  Stat w (userTheme w) = true ∨ Stat w (bundledTheme w) = true →
  ∃ t g',
    InitSetting w g = (t, Ok tt g') ∧
    themeFolder g' = if Stat w (userTheme w) then userTheme w else bundledTheme w.
Proof.
  intros Hname Hsome. destruct (Stat w (userTheme w)) eqn:H1.
  - apply InitSetting_resolved; [exact Hname|now apply themeResolves_user].
  - destruct Hsome as [H|H2]; [discriminate|].
    apply InitSetting_resolved; [exact Hname|now apply themeResolves_bundled].
Qed.

Lemma InitSetting_user_theme_shadows_bundled_witness :
  let w := Sample.world (Sample.setting "") Sample.both in
  ∃ t g',
    InitSetting w zero = (t, Ok tt g') ∧
    themeFolder g' = if Stat w (userTheme w) then userTheme w else bundledTheme w.
Proof.
  apply (InitSetting_user_theme_shadows_bundled
           (Sample.world (Sample.setting "") Sample.both) zero).
  - vm_compute. discriminate.
  - left. reflexivity.
Defined.

(** X2. A theme name found in neither place stops the process: from any
    variables [InitSetting] prints the one message and exits with
    status 1. *)
Theorem InitSetting_theme_not_found (w : World) (g : Globals) :
  len (themeName w) ≠ 0%nat →
  Stat w (userTheme w) = false → Stat w (bundledTheme w) = false →
  InitSetting w g =
    ([PrintError ("Theme " ++ dq ++ themeName w ++ dq ++ " not found")], Exit 1).
Proof.
  intros Hname H1 H2. apply InitSetting_theme_missing; [exact Hname|].
  intros g0. now apply getThemeFolder_missing.
Qed.

Lemma InitSetting_theme_not_found_witness :
  let w := Sample.world {[ "current_theme" := "Light" ]} Sample.disk in
  InitSetting w zero =
    ([PrintError ("Theme " ++ dq ++ themeName w ++ dq ++ " not found")], Exit 1).
Proof.
  apply (InitSetting_theme_not_found
           (Sample.world {[ "current_theme" := "Light" ]} Sample.disk) zero).
  - vm_compute. discriminate.
  - reflexivity.
  - reflexivity.
Defined.

(** X3. Whenever [InitSetting] returns with [replaceColors] set, nothing
    was printed, the color file of the theme folder is loaded, it has at
    least two sections, and [colorSection] is one of them. *)
Theorem InitSetting_active_colors
  (w : World) (g g' : Globals) (t : list Event) :
  InitSetting w g = (t, Ok tt g') →
  replaceColors g' = true →
  t = [] ∧
  ∃ f s,
    InsensitiveLoad w (colorPath w (themeFolder g')) = Some f ∧
    colorCfg g' = Some f ∧
    (2 ≤ length (ini.Sections f))%nat ∧
    colorSection g' = Some s ∧
    s ∈ ini.Sections f.
Proof.
  intros Hrun Hrc.
  destruct (Nat.eq_dec (len (themeName w)) 0) as [Z|NZ].
  { rewrite (InitSetting_no_theme w g Z) in Hrun. injection Hrun as <- <-.
    discriminate. }
  destruct (getThemeFolder_cases w (themeName w))
    as [(folder & _ & Hres)|(msg & Hmiss)];
    [|rewrite (InitSetting_theme_missing w g msg NZ Hmiss) in Hrun; discriminate].
  rewrite (InitSetting_theme w g folder NZ Hres) in Hrun.
  destruct (replaceColors (checked w folder g)) eqn:Hc;
    [|injection Hrun as <- <-; rewrite Hc in Hrc; discriminate].
  destruct (InsensitiveLoad w (colorPath w folder)) as [f|] eqn:L.
  - destruct (Nat.lt_ge_cases (length (ini.Sections f)) 2) as [Hlen|Hlen].
    + rewrite (loadColors_too_short _ _ _ _ L Hlen) in Hrun.
      injection Hrun as <- <-. discriminate.
    + rewrite (loadColors_select _ _ _ _ L Hlen) in Hrun.
      injection Hrun as <- <-. split; [reflexivity|]. simpl.
      destruct (ini.Sections f !! 1%nat) as [second|] eqn:H1;
        [|apply lookup_ge_None in H1; lia].
      assert (Hsec : second ∈ ini.Sections f)
        by (apply list_elem_of_lookup; eauto).
      destruct (len (schemeName w) =? 0)%nat.
      * exists f, second. auto.
      * destruct (ini.GetSection (ToLower w) f (schemeName w)) as [s|] eqn:G.
        -- exists f, s. repeat split; auto. now apply GetSection_Some in G.
        -- exists f, second. auto.
  - rewrite (loadColors_unreadable _ _ _ L) in Hrun.
    injection Hrun as <- <-. discriminate.
Qed.

Lemma InitSetting_active_colors_witness :
  let w := Sample.world (Sample.setting "") Sample.disk in
  ([] : list Event) = [] ∧
  ∃ f s,
    InsensitiveLoad w (colorPath w (themeFolder Sample.previous)) = Some f ∧
    colorCfg Sample.previous = Some f ∧
    (2 ≤ length (ini.Sections f))%nat ∧
    colorSection Sample.previous = Some s ∧
    s ∈ ini.Sections f.
Proof.
  apply (InitSetting_active_colors
           (Sample.world (Sample.setting "") Sample.disk) zero Sample.previous []).
  - reflexivity.
  - reflexivity.
Defined.

(** X4. With color replacement switched off, or without a color file in
    the theme folder, [InitSetting] does not open the color file: it
    prints nothing and leaves [colorCfg] and [colorSection] as they
    were, however broken the file may be. *)
Theorem InitSetting_colors_left_alone
  (w : World) (g : Globals) (folder : string) :
  len (themeName w) ≠ 0%nat →
  themeResolves w folder →
  preference w "replace_colors" = false ∨ Stat w (colorPath w folder) = false →
  ∃ g',
    InitSetting w g = ([], Ok tt g') ∧
    replaceColors g' = false ∧
    colorCfg g' = colorCfg g ∧
    colorSection g' = colorSection g.
Proof.
  intros Hname Hres Hoff. rewrite (InitSetting_theme w g folder Hname Hres).
  rewrite replaceColors_checked.
  assert (E : preference w "replace_colors" && Stat w (colorPath w folder) = false).
  { destruct Hoff as [H|H]; rewrite H; [reflexivity|apply andb_false_r]. }
  rewrite E. eexists. split; [reflexivity|]. simpl. rewrite E. auto.
Qed.

Lemma InitSetting_colors_left_alone_witness :
  let w := Sample.world (Sample.setting "") Sample.no_colors in
  ∃ g',
    InitSetting w Sample.previous = ([], Ok tt g') ∧
    replaceColors g' = false ∧
    colorCfg g' = colorCfg Sample.previous ∧
    colorSection g' = colorSection Sample.previous.
Proof.
  apply (InitSetting_colors_left_alone
           (Sample.world (Sample.setting "") Sample.no_colors) Sample.previous
           "/cfg/Themes/Dark").
  - vm_compute. discriminate.
  - intros g. reflexivity.
  - right. reflexivity.
Defined.

(** X5. What [InitSetting] can do at all: it exits only with status 1,
    prints nothing or one error, and never touches the debugger url or
    the reload callback. *)
Theorem InitSetting_footprint (w : World) (g : Globals) :
  match InitSetting w g with
  | (t, Ok _ g') =>
      (t = [] ∨ ∃ msg, t = [PrintError msg]) ∧
      debuggerURL g' = debuggerURL g ∧
      autoReloadFunc g' = autoReloadFunc g
  | (t, Exit code) => code = 1%Z ∧ ∃ msg, t = [PrintError msg]
  end.
Proof.
  destruct (Nat.eq_dec (len (themeName w)) 0) as [Z|NZ].
  { rewrite (InitSetting_no_theme w g Z). simpl. auto. }
  destruct (getThemeFolder_cases w (themeName w))
    as [(folder & _ & Hres)|(msg & Hmiss)].
  - rewrite (InitSetting_theme w g folder NZ Hres).
    destruct (replaceColors (checked w folder g)); [|simpl; auto].
    destruct (InsensitiveLoad w (colorPath w folder)) as [f|] eqn:L.
    + destruct (Nat.lt_ge_cases (length (ini.Sections f)) 2) as [Hlen|Hlen].
      * rewrite (loadColors_too_short _ _ _ _ L Hlen). simpl. eauto.
      * rewrite (loadColors_select _ _ _ _ L Hlen). simpl. auto.
    + rewrite (loadColors_unreadable _ _ _ L). simpl. eauto.
  - rewrite (InitSetting_theme_missing w g msg NZ Hmiss). eauto.
Qed.

(** X6. With a theme found, the flags are exactly these: [injectCSS] and
    [overwriteAssets] are preference and resource; [replaceColors] is
    set exactly when the preference is on, the color file exists and it
    loads with at least two sections. *)
Theorem InitSetting_flags_exact
  (w : World) (g : Globals) (folder : string) :
  len (themeName w) ≠ 0%nat →
  themeResolves w folder →
  ∃ t g',
    InitSetting w g = (t, Ok tt g') ∧
    injectCSS g' = (preference w "inject_css" && Stat w (cssPath w folder)) ∧
    overwriteAssets g' =
      (preference w "overwrite_assets" && Stat w (assetsPath w folder)) ∧
    (replaceColors g' = true ↔
     preference w "replace_colors" = true ∧
     ∃ f, InsensitiveLoad w (colorPath w folder) = Some f ∧
          (2 ≤ length (ini.Sections f))%nat).
Proof.
  intros Hname Hres. rewrite (InitSetting_theme w g folder Hname Hres).
  rewrite replaceColors_checked.
  destruct (preference w "replace_colors") eqn:Hp; simpl.
  - destruct (Stat w (colorPath w folder)) eqn:Hs.
    + destruct (InsensitiveLoad w (colorPath w folder)) as [f|] eqn:L.
      * destruct (Nat.lt_ge_cases (length (ini.Sections f)) 2) as [Hlen|Hlen].
        -- rewrite (loadColors_too_short _ _ _ _ L Hlen). eexists _, _.
           split; [reflexivity|]. simpl. repeat split; try discriminate.
           intros (_ & f' & [= <-] & H). lia.
        -- rewrite (loadColors_select _ _ _ _ L Hlen). eexists _, _.
           split; [reflexivity|]. simpl. rewrite Hp, Hs. repeat split; eauto.
      * rewrite (loadColors_unreadable _ _ _ L). eexists _, _.
        split; [reflexivity|]. simpl. repeat split; try discriminate.
        intros (_ & f' & [=] & _).
    + eexists _, _. split; [reflexivity|]. simpl. rewrite Hp, Hs.
      repeat split; try discriminate.
      intros (_ & f & L & _). apply InsensitiveLoad_Some in L as [L _]. congruence.
  - eexists _, _. split; [reflexivity|]. simpl. rewrite Hp.
    repeat split; try discriminate. intros [H _]. discriminate.
Qed.

Lemma InitSetting_flags_exact_witness :
  let w := Sample.world (Sample.setting "") Sample.single in
  ∃ t g',
    InitSetting w zero = (t, Ok tt g') ∧
    injectCSS g' =
      (preference w "inject_css" && Stat w (cssPath w "/cfg/Themes/Dark")) ∧
    overwriteAssets g' =
      (preference w "overwrite_assets" && Stat w (assetsPath w "/cfg/Themes/Dark")) ∧
    (replaceColors g' = true ↔
     preference w "replace_colors" = true ∧
     ∃ f, InsensitiveLoad w (colorPath w "/cfg/Themes/Dark") = Some f ∧
          (2 ≤ length (ini.Sections f))%nat).
Proof.
  apply (InitSetting_flags_exact
           (Sample.world (Sample.setting "") Sample.single) zero "/cfg/Themes/Dark").
  - vm_compute. discriminate.
  - intros g. reflexivity.
Defined.

(** Every flag [InitSetting] leaves set has its resource on disk. *)
Lemma InitSetting_resources_exist
  (w : World) (g g' : Globals) (t : list Event) :
  InitSetting w g = (t, Ok tt g') →
  (replaceColors g' = true → Stat w (colorPath w (themeFolder g')) = true) ∧
  (injectCSS g' = true → Stat w (cssPath w (themeFolder g')) = true) ∧
  (overwriteAssets g' = true → Stat w (assetsPath w (themeFolder g')) = true).
Proof.
  intros Hrun.
  destruct (Nat.eq_dec (len (themeName w)) 0) as [Z|NZ].
  { rewrite (InitSetting_no_theme w g Z) in Hrun. injection Hrun as <- <-.
    simpl. repeat split; discriminate. }
  destruct (getThemeFolder_cases w (themeName w))
    as [(folder & _ & Hres)|(msg & Hmiss)];
    [|rewrite (InitSetting_theme_missing w g msg NZ Hmiss) in Hrun; discriminate].
  rewrite (InitSetting_theme w g folder NZ Hres) in Hrun.
  assert (G : ∀ g0,
    themeFolder g0 = folder →
    injectCSS g0 = injectCSS (checked w folder g) →
    overwriteAssets g0 = overwriteAssets (checked w folder g) →
    (replaceColors g0 = true → replaceColors (checked w folder g) = true) →
    (replaceColors g0 = true → Stat w (colorPath w (themeFolder g0)) = true) ∧
    (injectCSS g0 = true → Stat w (cssPath w (themeFolder g0)) = true) ∧
    (overwriteAssets g0 = true → Stat w (assetsPath w (themeFolder g0)) = true)).
  { intros g0 H1 H2 H3 H4.
    destruct (checked_flags_sound w g g0 folder H1 H2 H3 H4) as (A & B & C & _).
    repeat split; intros H; [apply A in H|apply B in H|apply C in H]; tauto. }
  destruct (replaceColors (checked w folder g)) eqn:Hc.
  - destruct (loadColors_frame w (colorPath w folder) (checked w folder g))
      as (t0 & g0 & E & Hdir & Hcss & Hoa & _ & _ & Hrc').
    rewrite E in Hrun. injection Hrun as <- <-. apply G; auto.
  - injection Hrun as <- <-. apply G; auto. intros H. rewrite Hc in H. discriminate.
Qed.

(** ** [Watch], [WatchExtensions] and their callbacks *)

Lemma debugged_theme (w : World) (liveUpdate : bool) (g : Globals) :
  themeFolder (debugged w liveUpdate g) = themeFolder g ∧
  replaceColors (debugged w liveUpdate g) = replaceColors g ∧
  injectCSS (debugged w liveUpdate g) = injectCSS g ∧
  overwriteAssets (debugged w liveUpdate g) = overwriteAssets g.
Proof. destruct liveUpdate; simpl; auto. Qed.

(** [Watch] past its checks: the subscriptions it starts. *)
Lemma Watch_run (w : World) (g g1 : Globals) (t : list Event) (liveUpdate : bool) :
  IsModdable w (spotifyPath w) = true →
  InitSetting w g = (t, Ok tt g1) →
  len (themeFolder g1) ≠ 0%nat →
  Watch w liveUpdate g =
    (t ++ debuggerTrace w liveUpdate,
     Ok ((if overwriteAssets g1
          then [mkSubscription [assetsPath w (themeFolder g1)] true OnAssets
                               (autoReloadFunc (debugged w liveUpdate g1))]
          else []) ++
         [mkSubscription
            ((if replaceColors g1 then [colorPath w (themeFolder g1)] else []) ++
             (if injectCSS g1 then [cssPath w (themeFolder g1)] else []))
            false OnThemeFiles (autoReloadFunc (debugged w liveUpdate g1))])
        (debugged w liveUpdate g1)).
Proof.
  intros Hvalid Hrun Hdir. unfold Watch. step isValidForWatching_run.
  rewrite Hvalid. simpl. step Hrun. step startDebugger_run.
  destruct (debugged_theme w liveUpdate g1) as (E1 & E2 & E3 & E4).
  unfold bind at 1. unfold read at 1. rewrite E1.
  destruct (Nat.eqb_spec (len (themeFolder g1)) 0) as [Z|_]; [contradiction|].
  unfold bind, read, ret. simpl. rewrite E2, E3, E4.
  unfold assetsPath, colorPath, cssPath.
  destruct (replaceColors g1), (injectCSS g1), (overwriteAssets g1); simpl;
    rewrite ?app_nil_r; reflexivity.
Qed.

(** When [InitSetting] stops the process, so does [Watch], with nothing
    more printed or started. *)
Lemma Watch_stopped (w : World) (g : Globals) (t : list Event) (code : Z)
      (liveUpdate : bool) :
  IsModdable w (spotifyPath w) = true →
  InitSetting w g = (t, Exit code) →
  Watch w liveUpdate g = (t, Exit code).
Proof.
  intros Hvalid Hrun. unfold Watch. step isValidForWatching_run.
  rewrite Hvalid. simpl. step Hrun. reflexivity.
Qed.

(** X7. [Watch] hands the watchers only paths that exist: every path of
    every subscription it starts was found on disk by the resolution it
    just ran. *)
Theorem Watch_paths_exist
  (w : World) (g : Globals) (folder : string) (liveUpdate : bool) :
  IsModdable w (spotifyPath w) = true →
  len (themeName w) ≠ 0%nat →
  themeResolves w folder →
  len folder ≠ 0%nat →
  ∃ t subs g',
    Watch w liveUpdate g = (t, Ok subs g') ∧
    ∀ sub p, sub ∈ subs → p ∈ paths sub → Stat w p = true.
Proof.
  intros Hvalid Hname Hres Hfolder.
  destruct (InitSetting_resolved w g folder Hname Hres) as (t & g1 & Hrun & Hdir).
  destruct (InitSetting_resources_exist w g g1 t Hrun) as (Hc & Hs & Ha).
  rewrite (Watch_run w g g1 t liveUpdate Hvalid Hrun) by (now rewrite Hdir).
  eexists _, _, _. split; [reflexivity|].
  intros sub p Hsub Hp.
  apply elem_of_app in Hsub as [Hsub|Hsub].
  - destruct (overwriteAssets g1); [|inversion Hsub].
    apply list_elem_of_singleton in Hsub. subst sub. simpl in Hp.
    apply list_elem_of_singleton in Hp. subst p. now apply Ha.
  - apply list_elem_of_singleton in Hsub. subst sub. simpl in Hp.
    apply elem_of_app in Hp as [Hp|Hp].
    + destruct (replaceColors g1); [|inversion Hp].
      apply list_elem_of_singleton in Hp. subst p. now apply Hc.
    + destruct (injectCSS g1); [|inversion Hp].
      apply list_elem_of_singleton in Hp. subst p. now apply Hs.
Qed.

Lemma Watch_paths_exist_witness :
  let w := Sample.world (Sample.setting "") Sample.disk in
  ∃ t subs g',
    Watch w true zero = (t, Ok subs g') ∧
    ∀ sub p, sub ∈ subs → p ∈ paths sub → Stat w p = true.
Proof.
  apply (Watch_paths_exist
           (Sample.world (Sample.setting "") Sample.disk) zero "/cfg/Themes/Dark" true).
  - reflexivity.
  - vm_compute. discriminate.
  - intros g. reflexivity.
  - vm_compute. discriminate.
Defined.

(** X8. With a theme found but no feature active (no preference on, or no
    resource in the folder) [Watch] does not stop: it starts the one flat
    watcher, on an empty list of files, and no recursive one. *)
Theorem Watch_nothing_to_watch
  (w : World) (g : Globals) (folder : string) (liveUpdate : bool) :
  IsModdable w (spotifyPath w) = true →
  len (themeName w) ≠ 0%nat →
  themeResolves w folder →
  len folder ≠ 0%nat →
  preference w "replace_colors" && Stat w (colorPath w folder) = false →
  preference w "inject_css" && Stat w (cssPath w folder) = false →
  preference w "overwrite_assets" && Stat w (assetsPath w folder) = false →
  ∃ g',
    Watch w liveUpdate g =
      (debuggerTrace w liveUpdate,
       Ok [mkSubscription [] false OnThemeFiles (autoReloadFunc g')] g').
Proof.
  intros Hvalid Hname Hres Hfolder Hc Hs Ha.
  assert (Hrun : InitSetting w g = ([], Ok tt (checked w folder g))).
  { rewrite (InitSetting_theme w g folder Hname Hres).
    now rewrite replaceColors_checked, Hc. }
  rewrite (Watch_run w g _ [] liveUpdate Hvalid Hrun) by exact Hfolder.
  simpl. rewrite Hc, Hs, Ha. simpl. eexists. reflexivity.
Qed.

Lemma Watch_nothing_to_watch_witness :
  let w := Sample.world {[ "current_theme" := "Dark" ]} Sample.disk in
  ∃ g',
    Watch w false zero =
      (debuggerTrace w false,
       Ok [mkSubscription [] false OnThemeFiles (autoReloadFunc g')] g').
Proof.
  apply (Watch_nothing_to_watch
           (Sample.world {[ "current_theme" := "Dark" ]} Sample.disk) zero
           "/cfg/Themes/Dark" false).
  - reflexivity.
  - vm_compute. discriminate.
  - intros g. reflexivity.
  - vm_compute. discriminate.
  - reflexivity.
  - reflexivity.
  - reflexivity.
Defined.

(** X9. Before Spotify was patched both watch commands stop at once:
    one error, status 1, and nothing resolved, restarted or looked up,
    whatever the configuration and the disk hold. *)
Theorem watch_commands_need_apply (w : World) (g : Globals) (liveUpdate : bool) :
  IsModdable w (spotifyPath w) = false →
  ∃ msg,
    Watch w liveUpdate g = ([PrintError msg], Exit 1) ∧
    WatchExtensions w liveUpdate g = ([PrintError msg], Exit 1).
Proof.
  intros Hvalid. eexists. unfold Watch, WatchExtensions.
  split; step isValidForWatching_run; rewrite Hvalid; reflexivity.
Qed.

Lemma watch_commands_need_apply_witness :
  ∃ msg,
    Watch Sample.unpatched true zero = ([PrintError msg], Exit 1) ∧
    WatchExtensions Sample.unpatched true zero = ([PrintError msg], Exit 1).
Proof.
  apply (watch_commands_need_apply Sample.unpatched zero true). reflexivity.
Defined.

(** X10. A theme that is configured but found nowhere stops [Watch]
    before the debugger is looked for: the one message, status 1, and
    Spotify is not restarted even under live update. *)
Theorem Watch_theme_not_found (w : World) (g : Globals) (liveUpdate : bool) :
  IsModdable w (spotifyPath w) = true →
  len (themeName w) ≠ 0%nat →
  Stat w (userTheme w) = false → Stat w (bundledTheme w) = false →
  Watch w liveUpdate g =
    ([PrintError ("Theme " ++ dq ++ themeName w ++ dq ++ " not found")], Exit 1).
Proof.
  intros Hvalid Hname H1 H2. apply Watch_stopped; [exact Hvalid|].
  apply InitSetting_theme_missing; [exact Hname|].
  intros g0. now apply getThemeFolder_missing.
Qed.

Lemma Watch_theme_not_found_witness :
  let w := Sample.world {[ "current_theme" := "Light" ]} Sample.disk in
  Watch w true zero =
    ([PrintError ("Theme " ++ dq ++ themeName w ++ dq ++ " not found")], Exit 1).
Proof.
  apply (Watch_theme_not_found
           (Sample.world {[ "current_theme" := "Light" ]} Sample.disk) zero true).
  - reflexivity.
  - vm_compute. discriminate.
  - reflexivity.
  - reflexivity.
Defined.

(** X11. With no theme configured, live update requested and no debugger
    answering, [Watch] has Spotify restarted and only then stops on the
    blank theme: the restart is not held back by the error that
    follows. *)
Theorem Watch_blank_theme_restarts_first (w : World) (g : Globals) :
  IsModdable w (spotifyPath w) = true →
  len (themeName w) = 0%nat →
  len (themeFolder g) = 0%nat →
  len (GetDebuggerPath w) = 0%nat →
  Watch w true g =
    ([RestartSpotify "--remote-debugging-port=9222";
      PrintError ("Config " ++ dq ++ "current_theme" ++ dq
                    ++ " is blank. No theme asset to watch.")],
     Exit 1).
Proof.
  intros Hvalid Hname Hdir Hurl.
  rewrite (Watch_no_theme w g true Hname Hdir), Hvalid.
  unfold debuggerTrace. rewrite Hurl. reflexivity.
Qed.

Lemma Watch_blank_theme_restarts_first_witness :
  Watch (Sample.no_debugger Sample.no_theme) true zero =
    ([RestartSpotify "--remote-debugging-port=9222";
      PrintError ("Config " ++ dq ++ "current_theme" ++ dq
                    ++ " is blank. No theme asset to watch.")],
     Exit 1).
Proof.
  apply (Watch_blank_theme_restarts_first (Sample.no_debugger Sample.no_theme) zero);
    reflexivity.
Defined.

(** [WatchExtensions] past its checks. *)
Lemma WatchExtensions_run (w : World) (g : Globals) (liveUpdate : bool) :
  IsModdable w (spotifyPath w) = true →
  omap (getExtensionPath w) (extensions w) ≠ [] →
  WatchExtensions w liveUpdate g =
    (debuggerTrace w liveUpdate ++
       map (fun v => PrintError ("Extension " ++ dq ++ v ++ dq ++ " not found."))
           (filter (fun v => getExtensionPath w v = None) (extensions w)),
     Ok (mkSubscription (omap (getExtensionPath w) (extensions w)) false
                        (OnExtension (Join w [appPath w; "zlink"]))
                        (autoReloadFunc (debugged w liveUpdate g)))
        (debugged w liveUpdate g)).
Proof.
  intros Hvalid Hfound. unfold WatchExtensions.
  step isValidForWatching_run. rewrite Hvalid. simpl.
  step startDebugger_run. step resolveExtensions_run. simpl.
  destruct (omap (getExtensionPath w) (extensions w)) as [|p found]; [contradiction|].
  unfold bind, read, ret. simpl. now rewrite !app_nil_r.
Qed.

(** X12. In a process that has not started the debugger before, the
    watchers get the reload callback exactly under live update: every
    subscription of [Watch] and the one of [WatchExtensions] carries it
    when [liveUpdate] is set, and none otherwise. *)
Theorem reload_bound_iff_live_update
  (w : World) (g : Globals) (folder : string) (liveUpdate : bool) :
  autoReloadFunc g = None →
  IsModdable w (spotifyPath w) = true →
  len (themeName w) ≠ 0%nat → themeResolves w folder → len folder ≠ 0%nat →
  omap (getExtensionPath w) (extensions w) ≠ [] →
  (∃ t subs g',
     Watch w liveUpdate g = (t, Ok subs g') ∧
     ∀ sub, sub ∈ subs →
            onReload sub = if liveUpdate then Some ReloadSpotify else None) ∧
  (∃ t sub g',
     WatchExtensions w liveUpdate g = (t, Ok sub g') ∧
     onReload sub = if liveUpdate then Some ReloadSpotify else None).
Proof.
  intros Hnil Hvalid Hname Hres Hfolder Hfound.
  assert (Hbound : ∀ g0, autoReloadFunc g0 = None →
            autoReloadFunc (debugged w liveUpdate g0)
              = if liveUpdate then Some ReloadSpotify else None)
    by (intros g0 H0; destruct liveUpdate; simpl; auto).
  split.
  - destruct (InitSetting_resolved w g folder Hname Hres) as (t & g1 & Hrun & Hdir).
    pose proof (InitSetting_footprint w g) as Hfoot. rewrite Hrun in Hfoot.
    destruct Hfoot as (_ & _ & Hkeep).
    rewrite (Watch_run w g g1 t liveUpdate Hvalid Hrun) by (now rewrite Hdir).
    eexists _, _, _. split; [reflexivity|].
    intros sub Hsub. rewrite <- (Hbound g1) by congruence.
    apply elem_of_app in Hsub as [Hsub|Hsub].
    + destruct (overwriteAssets g1); [|inversion Hsub].
      apply list_elem_of_singleton in Hsub. now subst sub.
    + apply list_elem_of_singleton in Hsub. now subst sub.
  - rewrite (WatchExtensions_run w g liveUpdate Hvalid Hfound).
    eexists _, _, _. split; [reflexivity|]. simpl. now apply Hbound.
Qed.

Lemma reload_bound_iff_live_update_witness :
  let w := Sample.world (Sample.setting "") Sample.disk in
  (∃ t subs g',
     Watch w false zero = (t, Ok subs g') ∧
     ∀ sub, sub ∈ subs → onReload sub = None) ∧
  (∃ t sub g',
     WatchExtensions w false zero = (t, Ok sub g') ∧
     onReload sub = None).
Proof.
  apply (reload_bound_iff_live_update
           (Sample.world (Sample.setting "") Sample.disk) zero
           "/cfg/Themes/Dark" false).
  - reflexivity.
  - reflexivity.
  - vm_compute. discriminate.
  - intros g. reflexivity.
  - vm_compute. discriminate.
  - vm_compute. discriminate.
Defined.

(** X13. When the theme folder has gone by the time a watched theme file
    changes, the change handler stops the process: the re-resolution
    prints that the theme is not found and the stylesheet is not
    updated. *)
Theorem theme_change_after_folder_removed
  (w : World) (g : Globals) (filePath : string) :
  len (themeName w) ≠ 0%nat →
  Stat w (userTheme w) = false → Stat w (bundledTheme w) = false →
  react w OnThemeFiles filePath None g =
    ([PrintError ("Theme " ++ dq ++ themeName w ++ dq ++ " not found")], Exit 1).
Proof.
  intros Hname H1 H2. simpl.
  step (InitSetting_theme_not_found w g Hname H1 H2). reflexivity.
Qed.

Lemma theme_change_after_folder_removed_witness :
  let w := Sample.world (Sample.setting "") (mkFS ∅ ∅ ∅) in
  react w OnThemeFiles "/cfg/Themes/Dark/user.css" None Sample.previous =
    ([PrintError ("Theme " ++ dq ++ themeName w ++ dq ++ " not found")], Exit 1).
Proof.
  apply (theme_change_after_folder_removed
           (Sample.world (Sample.setting "") (mkFS ∅ ∅ ∅)) Sample.previous
           "/cfg/Themes/Dark/user.css").
  - vm_compute. discriminate.
  - reflexivity.
  - reflexivity.
Defined.

(** X14. A change of a watched extension is copied into the [zlink]
    folder under the apps path, the folder [WatchExtensions] chose when
    it subscribed; the handler stops the process when the copy fails and
    otherwise prints one success line and changes no variable. *)
Theorem extension_change_copied_to_zlink
  (w w' : World) (g g0 : Globals) (liveUpdate : bool) (filePath : string) :
  IsModdable w (spotifyPath w) = true →
  omap (getExtensionPath w) (extensions w) ≠ [] →
  ∃ t sub g',
    WatchExtensions w liveUpdate g = (t, Ok sub g') ∧
    react w' (onChange sub) filePath None g0 =
      match DoCopyFile w' filePath (Join w [appPath w; "zlink"]) with
      | Some e =>
          ([CopyFile filePath (Join w [appPath w; "zlink"]); PrintError e], Exit 1)
      | None =>
          ([CopyFile filePath (Join w [appPath w; "zlink"]);
            PrintSuccess (PrependTime w' ("Extension " ++ dq ++ filePath ++ dq
                                            ++ " is updated."))],
           Ok tt g0)
      end.
Proof.
  intros Hvalid Hfound. rewrite (WatchExtensions_run w g liveUpdate Hvalid Hfound).
  eexists _, _, _. split; [reflexivity|]. simpl.
  unfold bind, emit, os_Exit.
  destruct (DoCopyFile w' filePath (Join w [appPath w; "zlink"])); reflexivity.
Qed.

Lemma extension_change_copied_to_zlink_witness :
  let w := Sample.world (Sample.setting "") Sample.disk in
  ∃ t sub g',
    WatchExtensions w false zero = (t, Ok sub g') ∧
    react w (onChange sub) "/cfg/Extensions/a.js" None zero =
      match DoCopyFile w "/cfg/Extensions/a.js" (Join w [appPath w; "zlink"]) with
      | Some e =>
          ([CopyFile "/cfg/Extensions/a.js" (Join w [appPath w; "zlink"]);
            PrintError e], Exit 1)
      | None =>
          ([CopyFile "/cfg/Extensions/a.js" (Join w [appPath w; "zlink"]);
            PrintSuccess (PrependTime w ("Extension " ++ dq ++ "/cfg/Extensions/a.js"
                                           ++ dq ++ " is updated."))],
           Ok tt zero)
      end.
Proof.
  apply (extension_change_copied_to_zlink
           (Sample.world (Sample.setting "") Sample.disk)
           (Sample.world (Sample.setting "") Sample.disk) zero zero false
           "/cfg/Extensions/a.js").
  - reflexivity.
  - vm_compute. discriminate.
Defined.

Lemma extensions_count (w : World) (names : list string) :
  (length (omap (getExtensionPath w) names) +
   length (filter (fun e => isPrintError e = true)
             (map (fun v => PrintError ("Extension " ++ dq ++ v ++ dq ++ " not found."))
                  (filter (fun v => getExtensionPath w v = None) names)))
   = length names)%nat.
Proof.
  induction names as [|v l IH]; [reflexivity|].
  rewrite filter_cons. cbn [omap list_omap].
  destruct (getExtensionPath w v) as [q|] eqn:E.
  - rewrite decide_False by discriminate. cbn [length]. simpl in IH. simpl. lia.
  - rewrite decide_True by reflexivity. cbn [map]. rewrite filter_cons.
    rewrite decide_True by reflexivity. cbn [length]. simpl in IH. simpl. lia.
Qed.

(** X15. Every configured extension name is accounted for once: when
    [WatchExtensions] starts its watcher, the watched paths and the
    errors it printed add up to the number of configured names. *)
Theorem extensions_accounted_for
  (w : World) (g g' : Globals) (liveUpdate : bool) (t : list Event)
  (sub : Subscription) :
  WatchExtensions w liveUpdate g = (t, Ok sub g') →
  (length (paths sub) + length (filter (fun e => isPrintError e = true) t)
   = length (extensions w))%nat.
Proof.
  intros Hrun.
  destruct (IsModdable w (spotifyPath w)) eqn:Hvalid.
  2:{ unfold WatchExtensions in Hrun. revert Hrun.
      step isValidForWatching_run. rewrite Hvalid. discriminate. }
  destruct (omap (getExtensionPath w) (extensions w)) as [|p found] eqn:Hfound.
  { revert Hrun. unfold WatchExtensions. step isValidForWatching_run.
    rewrite Hvalid. simpl. step startDebugger_run. step resolveExtensions_run.
    rewrite Hfound. simpl. discriminate. }
  rewrite (WatchExtensions_run w g liveUpdate Hvalid) in Hrun
    by (rewrite Hfound; discriminate).
  injection Hrun as <- <- <-. simpl.
  rewrite filter_app.
  assert (E1 : filter (fun e => isPrintError e = true) (debuggerTrace w liveUpdate) = []).
  { unfold debuggerTrace.
    destruct (liveUpdate && (len (GetDebuggerPath w) =? 0)%nat); reflexivity. }
  rewrite E1. rewrite app_nil_l. apply extensions_count.
Qed.

Lemma extensions_accounted_for_witness :
  let w := Sample.no_debugger (Sample.setting "") in
  let sub := mkSubscription ["/cfg/Extensions/a.js"; "/cfg/Extensions/a.js"] false
               (OnExtension "/opt/spotify/Apps/zlink") (Some ReloadSpotify) in
  let t := [RestartSpotify "--remote-debugging-port=9222";
            PrintError ("Extension " ++ dq ++ "b.js" ++ dq ++ " not found.")] in
  (length (paths sub) + length (filter (fun e => isPrintError e = true) t)
   = length (extensions w))%nat.
Proof.
  apply (extensions_accounted_for
           (Sample.no_debugger (Sample.setting "")) zero
           (set_autoReloadFunc (Some ReloadSpotify) (set_debuggerURL "" zero)) true
           [RestartSpotify "--remote-debugging-port=9222";
            PrintError ("Extension " ++ dq ++ "b.js" ++ dq ++ " not found.")]
           (mkSubscription ["/cfg/Extensions/a.js"; "/cfg/Extensions/a.js"] false
              (OnExtension "/opt/spotify/Apps/zlink") (Some ReloadSpotify))).
  vm_compute. reflexivity.
Defined.

(** X16. After [startDebugger] the reload callback is bound even when no
    debugger answered, and its first attempt goes to the endpoint that
    was discovered: the url [GetDebuggerPath] gave, empty if it gave
    none. *)
Theorem startDebugger_then_reload (w w' : World) (g : Globals) :
  ∃ g1 g2 t,
    startDebugger w g =
      ((if (len (GetDebuggerPath w) =? 0)%nat
        then [RestartSpotify "--remote-debugging-port=9222"] else []),
       Ok tt g1) ∧
    autoReloadFunc g1 = Some ReloadSpotify ∧
    call w' ReloadSpotify g1 = (SendReload (GetDebuggerPath w) :: t, Ok tt g2) ∧
    debuggerURL g2 = fst (DoSendReload w' (GetDebuggerPath w)).
Proof.
  pose proof (startDebugger_run w true g) as H. unfold when in H.
  rewrite H. exists (debugged w true g). rewrite call_run.
  eexists _, _. split; [reflexivity|]. split; [reflexivity|].
  split; reflexivity.
Qed.

(** ** [getSpicetifyFolder] without an override *)

Lemma getSpicetifyFolder_Done (w : World) (path : string) :
  spicetifyFolderPath w = path →
  path ∈ nodes (fs w) ∨ path ∉ mkdir_fails (fs w) →
  ∃ disk, getSpicetifyFolder w = Done path disk ∧ path ∈ nodes disk.
Proof.
  intros Hpath Hcan. unfold getSpicetifyFolder, CheckExistAndCreate. rewrite Hpath.
  destruct (decide (path ∈ nodes (fs w))) as [Hin|Hout].
  - rewrite bool_decide_eq_true_2 by exact Hin. eauto.
  - rewrite bool_decide_eq_false_2 by exact Hout.
    destruct Hcan as [Hin|Hok]; [contradiction|].
    rewrite bool_decide_eq_false_2 by exact Hok.
    eexists. split; [reflexivity|]. simpl. set_solver.
Qed.

(** X17. A variable that is set to the empty text counts as unset: with
    [SPICETIFY_CONFIG] empty, or [XDG_CONFIG_HOME] empty, the folder is
    the one found without the variable, on every platform and whatever
    else the environment holds. *)
Theorem empty_variable_counts_as_unset
  (w : World) (e : gmap string string) (name : string) :
  name = "SPICETIFY_CONFIG" ∨ name = "XDG_CONFIG_HOME" →
  getSpicetifyFolder (withEnviron (<[name := ""]> e) w)
  = getSpicetifyFolder (withEnviron (delete name e) w).
Proof.
  intros Hname.
  assert (E : spicetifyFolderPath (withEnviron (<[name := ""]> e) w)
              = spicetifyFolderPath (withEnviron (delete name e) w)).
  { unfold spicetifyFolderPath, Getenv, LookupEnv. simpl.
    destruct Hname as [-> | ->].
    - rewrite lookup_insert_eq, lookup_delete_eq. simpl.
      rewrite !lookup_insert_ne, !lookup_delete_ne by discriminate. reflexivity.
    - rewrite lookup_insert_eq, lookup_delete_eq.
      rewrite !lookup_insert_ne, !lookup_delete_ne by discriminate. simpl.
      destruct (e !! "SPICETIFY_CONFIG") as [v|]; simpl; [|reflexivity].
      destruct (0 <? len v)%nat; reflexivity. }
  unfold getSpicetifyFolder. rewrite E. reflexivity.
Qed.

Lemma empty_variable_counts_as_unset_witness :
  let w := Sample.world (Sample.setting "") Sample.disk in
  getSpicetifyFolder (withEnviron (<["XDG_CONFIG_HOME" := ""]> {[ "HOME" := "/home/u" ]}) w)
  = getSpicetifyFolder (withEnviron (delete "XDG_CONFIG_HOME" {[ "HOME" := "/home/u" ]}) w).
Proof.
  apply (empty_variable_counts_as_unset
           (Sample.world (Sample.setting "") Sample.disk)
           {[ "HOME" := "/home/u" ]} "XDG_CONFIG_HOME").
  right. reflexivity.
Defined.

(** X18. On Linux and macOS, without a usable override, the folder is
    [spicetify] under [XDG_CONFIG_HOME] when that is set and not empty,
    and under [.config] of [HOME] otherwise. *)
Theorem spicetifyFolder_xdg_then_home (w : World) (parent : string) :
  GOOS w = "linux" ∨ GOOS w = "darwin" →
  environ w !! "SPICETIFY_CONFIG" = None ∨ environ w !! "SPICETIFY_CONFIG" = Some "" →
  parent = match environ w !! "XDG_CONFIG_HOME" with
           | Some x => if (len x =? 0)%nat
                       then Join w [Getenv w "HOME"; ".config"] else x
           | None => Join w [Getenv w "HOME"; ".config"]
           end →
  Join w [parent; "spicetify"] ∈ nodes (fs w) ∨
  Join w [parent; "spicetify"] ∉ mkdir_fails (fs w) →
  ∃ disk, getSpicetifyFolder w = Done (Join w [parent; "spicetify"]) disk.
Proof.
  intros Hos Hover -> Hcan.
  match goal with |- ∃ disk, _ = Done ?p disk =>
    destruct (getSpicetifyFolder_Done w p) as (disk & E & _); [|exact Hcan|eauto]
  end.
  unfold spicetifyFolderPath, Getenv, LookupEnv.
  assert (E : (let (result, isAvailable) :=
                 match environ w !! "SPICETIFY_CONFIG" with
                 | Some v => (v, true) | None => ("", false) end in
               isAvailable && (0 <? len result)%nat) = false)
    by (destruct Hover as [-> | ->]; reflexivity).
  destruct (match environ w !! "SPICETIFY_CONFIG" with
            | Some v => (v, true) | None => ("", false) end) as [result avail].
  rewrite E.
  assert (Hw : String.eqb (GOOS w) "windows" = false)
    by (destruct Hos as [-> | ->]; reflexivity).
  assert (Hl : String.eqb (GOOS w) "linux" || String.eqb (GOOS w) "darwin" = true)
    by (destruct Hos as [-> | ->]; reflexivity).
  rewrite Hw, Hl.
  destruct (environ w !! "XDG_CONFIG_HOME") as [x|]; simpl; [|reflexivity].
  destruct (len x =? 0)%nat; reflexivity.
Qed.

Lemma spicetifyFolder_xdg_then_home_witness :
  let w := withEnviron {[ "HOME" := "/home/u"; "XDG_CONFIG_HOME" := "/xdg" ]}
             (Sample.world (Sample.setting "") Sample.disk) in
  ∃ disk, getSpicetifyFolder w = Done (Join w ["/xdg"; "spicetify"]) disk.
Proof.
  apply (spicetifyFolder_xdg_then_home
           (withEnviron {[ "HOME" := "/home/u"; "XDG_CONFIG_HOME" := "/xdg" ]}
              (Sample.world (Sample.setting "") Sample.disk)) "/xdg").
  - left. reflexivity.
  - left. reflexivity.
  - reflexivity.
  - right. vm_compute. discriminate.
Defined.

(** X19. On a platform that is neither Windows, Linux nor macOS, and
    without a usable override, [getSpicetifyFolder] returns the empty
    path, and that is the directory it asks to have created. *)
Theorem spicetifyFolder_other_platform (w : World) :
  GOOS w ≠ "windows" → GOOS w ≠ "linux" → GOOS w ≠ "darwin" →
  environ w !! "SPICETIFY_CONFIG" = None ∨ environ w !! "SPICETIFY_CONFIG" = Some "" →
  "" ∈ nodes (fs w) ∨ "" ∉ mkdir_fails (fs w) →
  ∃ disk, getSpicetifyFolder w = Done "" disk.
Proof.
  intros H1 H2 H3 Hover Hcan.
  destruct (getSpicetifyFolder_Done w "") as (disk & E & _); [|exact Hcan|eauto].
  unfold spicetifyFolderPath, LookupEnv.
  apply String.eqb_neq in H1, H2, H3. rewrite H1, H2, H3.
  destruct Hover as [-> | ->]; reflexivity.
Qed.

Lemma spicetifyFolder_other_platform_witness :
  ∃ disk, getSpicetifyFolder (Sample.host "freebsd" ∅) = Done "" disk.
Proof.
  apply (spicetifyFolder_other_platform (Sample.host "freebsd" ∅)).
  - discriminate.
  - discriminate.
  - discriminate.
  - left. reflexivity.
  - right. vm_compute. discriminate.
Defined.

(** ** [InitPaths] *)

Section InitPaths_facts.
Import Startup.
Variable w : World.
Variables (FindAppPath FindPrefFilePath spicetifyFolder : string) (isAppX0 : bool).

Lemma Key_other (store : gmap string string) (key other v : string) :
  key ≠ other → ini.Key (<[key := v]> store) other = ini.Key store other.
Proof. intros H. unfold ini.Key. now rewrite lookup_insert_ne. Qed.

Lemma Key_nonempty (store : gmap string string) (key : string) :
  len (ini.Key store key) ≠ 0%nat → store !! key = Some (ini.Key store key).
Proof.
  unfold ini.Key. destruct (store !! key) as [v|]; simpl; [reflexivity|].
  intros H. now contradiction H.
Qed.

(** The four ways one stanza of [InitPaths] can go. *)
Lemma locate_cases (store : gmap string string) (key detected : string)
      (invalid : string → string) (undetected : string) :
  (len (ini.Key store key) ≠ 0%nat ∧ Stat w (ini.Key store key) = true ∧
   locate w store key detected invalid undetected
     = ([], Some (ini.Key store key, store))) ∨
  (len (ini.Key store key) ≠ 0%nat ∧ Stat w (ini.Key store key) = false ∧
   locate w store key detected invalid undetected
     = ([ErrorLine (invalid (ini.Key store key))], None)) ∨
  (len (ini.Key store key) = 0%nat ∧ len detected ≠ 0%nat ∧
   locate w store key detected invalid undetected
     = ([cfg_Write (<[key := detected]> store)],
        Some (detected, <[key := detected]> store))) ∨
  (len (ini.Key store key) = 0%nat ∧ len detected = 0%nat ∧
   locate w store key detected invalid undetected = ([ErrorLine undetected], None)).
Proof.
  unfold locate.
  destruct (Nat.eqb_spec (len (ini.Key store key)) 0) as [Z|NZ]; simpl.
  - destruct (Nat.eqb_spec (len detected) 0) as [Zd|NZd]; simpl; auto 10.
  - destruct (Stat w (ini.Key store key)) eqn:S; auto 10.
Qed.

(** What a stanza gives when it goes on: a path that is not empty and is
    stored under the key, the other keys untouched, and one save exactly
    when the path was detected. *)
Lemma locate_Some (store store' : gmap string string) (key detected path : string)
      (invalid : string → string) (undetected : string) (t : list Console) :
  locate w store key detected invalid undetected = (t, Some (path, store')) →
  len path ≠ 0%nat ∧ store' !! key = Some path ∧
  (∀ k, k ≠ key → store' !! k = store !! k) ∧
  t = (if (len (ini.Key store key) =? 0)%nat then [cfg_Write store'] else []) ∧
  (len (ini.Key store key) ≠ 0%nat → store' = store ∧ path = ini.Key store key
                                      ∧ Stat w path = true) ∧
  (len (ini.Key store key) = 0%nat → path = detected).
Proof.
  intros H.
  destruct (locate_cases store key detected invalid undetected)
    as [(NZ & S & E)|[(NZ & S & E)|[(Z & NZd & E)|(Z & Zd & E)]]];
    rewrite E in H; try discriminate; injection H as <- <- <-.
  - destruct (Nat.eqb_spec (len (ini.Key store key)) 0) as [Z|_]; [contradiction|].
    repeat split; auto; try contradiction. now apply Key_nonempty.
  - rewrite Z. simpl. repeat split; auto; try contradiction.
    + apply lookup_insert_eq.
    + intros k Hk. now apply lookup_insert_ne.
Qed.

Lemma locate_None (store : gmap string string) (key detected : string)
      (invalid : string → string) (undetected : string) (t : list Console) :
  locate w store key detected invalid undetected = (t, None) →
  (∃ msg, t = [ErrorLine msg]) ∧
  ((len (ini.Key store key) ≠ 0%nat ∧ Stat w (ini.Key store key) = false) ∨
   (len (ini.Key store key) = 0%nat ∧ len detected = 0%nat)).
Proof.
  intros H.
  destruct (locate_cases store key detected invalid undetected)
    as [(NZ & S & E)|[(NZ & S & E)|[(Z & NZd & E)|(Z & Zd & E)]]];
    rewrite E in H; try discriminate; injection H as <-; eauto.
Qed.

(** X20. [InitPaths] stops the process with status 1 exactly when one of
    the two paths cannot be had, configured but not on disk or neither
    configured nor detected; the error is then the last thing printed
    and the only error.  Otherwise no error is printed at all. *)
Theorem InitPaths_quits_iff_unobtainable :
  match InitPaths w FindAppPath FindPrefFilePath spicetifyFolder isAppX0 with
  | (t, Quit code) =>
      code = 1%Z ∧
      ¬ (obtainable w "spotify_path" FindAppPath ∧
         obtainable w "prefs_path" FindPrefFilePath) ∧
      ∃ t0 msg, t = t0 ++ [ErrorLine msg] ∧
                filter (fun c => isErrorLine c = true) t0 = []
  | (t, _) =>
      obtainable w "spotify_path" FindAppPath ∧
      obtainable w "prefs_path" FindPrefFilePath ∧
      filter (fun c => isErrorLine c = true) t = []
  end.
Proof.
  unfold InitPaths.
  match goal with |- context [locate w (settingSection w) "spotify_path" ?d ?i ?u] =>
    destruct (locate w (settingSection w) "spotify_path" d i u) as [t1 [[sp st1]|]] eqn:L1
  end.
  2:{ apply locate_None in L1 as [[msg ->] Hwhy]. split; [reflexivity|]. split.
      - intros [[(NZ & S)|(Z & NZd)] _]; destruct Hwhy as [(A & B)|(A & B)];
          unfold ini.Key in *; congruence.
      - exists [], msg. auto. }
  pose proof (locate_Some _ _ _ _ _ _ _ _ L1) as (Hsp & Hst1 & Hoth1 & -> & Hc1 & Hd1).
  assert (O1 : obtainable w "spotify_path" FindAppPath).
  { destruct (Nat.eq_dec (len (ini.Key (settingSection w) "spotify_path")) 0) as [Z|NZ].
    - right. split; [exact Z|]. now rewrite <- (Hd1 Z).
    - left. destruct (Hc1 NZ) as (_ & -> & S). auto. }
  assert (K : ini.Key st1 "prefs_path" = ini.Key (settingSection w) "prefs_path")
    by (unfold ini.Key; now rewrite Hoth1 by discriminate).
  assert (F1 : filter (fun c => isErrorLine c = true)
                 (if (len (ini.Key (settingSection w) "spotify_path") =? 0)%nat
                  then [cfg_Write st1] else []) = [])
    by (destruct (len (ini.Key (settingSection w) "spotify_path") =? 0)%nat; reflexivity).
  match goal with |- context [locate w st1 "prefs_path" ?d ?i ?u] =>
    destruct (locate w st1 "prefs_path" d i u) as [t2 [[pp st2]|]] eqn:L2
  end.
  2:{ apply locate_None in L2 as [[msg ->] Hwhy]. rewrite K in Hwhy.
      split; [reflexivity|]. split.
      - intros [_ [(NZ & S)|(Z & NZd)]]; destruct Hwhy as [(A & B)|(A & B)];
          unfold ini.Key in *; congruence.
      - eexists _, msg. split; [reflexivity|exact F1]. }
  pose proof (locate_Some _ _ _ _ _ _ _ _ L2) as (Hpp & Hst2 & Hoth2 & -> & Hc2 & Hd2).
  rewrite K in Hc2, Hd2.
  assert (O2 : obtainable w "prefs_path" FindPrefFilePath).
  { destruct (Nat.eq_dec (len (ini.Key (settingSection w) "prefs_path")) 0) as [Z|NZ].
    - right. split; [exact Z|]. now rewrite <- (Hd2 Z).
    - left. destruct (Hc2 NZ) as (_ & -> & S). auto. }
  assert (F : filter (fun c => isErrorLine c = true)
                ((if (len (ini.Key (settingSection w) "spotify_path") =? 0)%nat
                  then [cfg_Write st1] else []) ++
                 (if (len (ini.Key st1 "prefs_path") =? 0)%nat
                  then [cfg_Write st2] else [])) = []).
  { rewrite filter_app, F1.
    destruct (len (ini.Key st1 "prefs_path") =? 0)%nat; reflexivity. }
  destruct (CheckExistAndCreate _ _); auto.
Qed.

(** X21. When [InitPaths] goes on, the settings section and the variables
    agree: [spotify_path] and [prefs_path] hold the two resolved paths,
    neither is empty, and no other key of the section was touched. *)
Theorem InitPaths_store_agrees (t : list Console) (v : Vars) (disk : FS) :
  InitPaths w FindAppPath FindPrefFilePath spicetifyFolder isAppX0
    = (t, Finished v disk) →
  setting v !! "spotify_path" = Some (spotifyPath v) ∧
  setting v !! "prefs_path" = Some (prefsPath v) ∧
  len (spotifyPath v) ≠ 0%nat ∧ len (prefsPath v) ≠ 0%nat ∧
  ∀ k, k ≠ "spotify_path" → k ≠ "prefs_path" →
       setting v !! k = settingSection w !! k.
Proof.
  unfold InitPaths.
  match goal with |- context [locate w (settingSection w) "spotify_path" ?d ?i ?u] =>
    destruct (locate w (settingSection w) "spotify_path" d i u) as [t1 [[sp st1]|]] eqn:L1
  end; [|discriminate].
  match goal with |- context [locate w st1 "prefs_path" ?d ?i ?u] =>
    destruct (locate w st1 "prefs_path" d i u) as [t2 [[pp st2]|]] eqn:L2
  end; [|discriminate].
  pose proof (locate_Some _ _ _ _ _ _ _ _ L1) as (Hsp & Hst1 & Hoth1 & _).
  pose proof (locate_Some _ _ _ _ _ _ _ _ L2) as (Hpp & Hst2 & Hoth2 & _).
  destruct (CheckExistAndCreate _ _); [|discriminate].
  intros [= <- <- <-]. simpl. repeat split; auto.
  - rewrite Hoth2 by discriminate. exact Hst1.
  - intros k H1 H2. now rewrite Hoth2, Hoth1.
Qed.

(** X22. The configuration is saved once for each path that had to be
    detected and never otherwise: with both paths configured nothing is
    printed or saved, and the last save holds the section as
    [InitPaths] leaves it. *)
Theorem InitPaths_saves_only_detected (t : list Console) (v : Vars) (disk : FS) :
  InitPaths w FindAppPath FindPrefFilePath spicetifyFolder isAppX0
    = (t, Finished v disk) →
  t = (if (len (ini.Key (settingSection w) "spotify_path") =? 0)%nat
       then [cfg_Write (<["spotify_path" := spotifyPath v]> (settingSection w))]
       else []) ++
      (if (len (ini.Key (settingSection w) "prefs_path") =? 0)%nat
       then [cfg_Write (setting v)] else []).
Proof.
  unfold InitPaths.
  match goal with |- context [locate w (settingSection w) "spotify_path" ?d ?i ?u] =>
    destruct (locate_cases (settingSection w) "spotify_path" d i u)
      as [(NZ & S & ->)|[(NZ & S & ->)|[(Z & NZd & ->)|(Z & Zd & ->)]]]
  end; try discriminate.
  - match goal with |- context [locate w (settingSection w) "prefs_path" ?d ?i ?u] =>
      destruct (locate_cases (settingSection w) "prefs_path" d i u)
        as [(NZ2 & S2 & ->)|[(NZ2 & S2 & ->)|[(Z2 & NZd2 & ->)|(Z2 & Zd2 & ->)]]]
    end; try discriminate;
      destruct (CheckExistAndCreate _ _); try discriminate;
      intros [= <- <- <-]; simpl.
    + destruct (Nat.eqb_spec (len (ini.Key (settingSection w) "spotify_path")) 0);
        [contradiction|].
      destruct (Nat.eqb_spec (len (ini.Key (settingSection w) "prefs_path")) 0);
        [contradiction|reflexivity].
    + destruct (Nat.eqb_spec (len (ini.Key (settingSection w) "spotify_path")) 0);
        [contradiction|].
      rewrite Z2. reflexivity.
  - match goal with |- context [locate w ?st "prefs_path" ?d ?i ?u] =>
      destruct (locate_cases st "prefs_path" d i u)
        as [(NZ2 & S2 & ->)|[(NZ2 & S2 & ->)|[(Z2 & NZd2 & ->)|(Z2 & Zd2 & ->)]]]
    end; try discriminate;
      destruct (CheckExistAndCreate _ _); try discriminate;
      intros [= <- <- <-]; simpl; rewrite Z; simpl;
      rewrite Key_other in * by discriminate.
    + destruct (Nat.eqb_spec (len (ini.Key (settingSection w) "prefs_path")) 0);
        [contradiction|reflexivity].
    + rewrite Z2. reflexivity.
Qed.

(** X23. A Spotify path that was detected is saved even when the run
    then fails on the prefs file: the configuration is written with the
    detected [spotify_path] before the error and the exit. *)
Theorem InitPaths_detected_path_saved_before_exit :
  len (ini.Key (settingSection w) "spotify_path") = 0%nat →
  len FindAppPath ≠ 0%nat →
  ¬ obtainable w "prefs_path" FindPrefFilePath →
  ∃ msg,
    InitPaths w FindAppPath FindPrefFilePath spicetifyFolder isAppX0 =
      ([cfg_Write (<["spotify_path" := FindAppPath]> (settingSection w));
        ErrorLine msg],
       Quit 1).
Proof.
  intros Z NZd Hno. unfold InitPaths.
  match goal with |- context [locate w (settingSection w) "spotify_path" ?d ?i ?u] =>
    destruct (locate_cases (settingSection w) "spotify_path" d i u)
      as [(A & _)|[(A & _)|[(_ & _ & ->)|(_ & B & _)]]]
  end; try contradiction.
  match goal with |- context [locate w ?st "prefs_path" ?d ?i ?u] =>
    destruct (locate_cases st "prefs_path" d i u)
      as [(NZ2 & S2 & E)|[(NZ2 & S2 & ->)|[(Z2 & NZd2 & E)|(Z2 & Zd2 & ->)]]]
  end; rewrite ?Key_other in * by discriminate.
  - exfalso. apply Hno. left. auto.
  - eexists. reflexivity.
  - exfalso. apply Hno. right. auto.
  - eexists. reflexivity.
Qed.

End InitPaths_facts.

Lemma InitPaths_store_agrees_witness :
  let w := Sample.host "linux" {[ "spotify_path" := "/opt/spotify" ]} in
  let store : gmap string string :=
    {[ "spotify_path" := "/opt/spotify";
       "prefs_path" := "/home/u/.config/spotify/prefs" ]} in
  let v := Startup.mkVars "/opt/spotify" "/home/u/.config/spotify/prefs" false
             "/opt/spotify/Apps" "/opt/spotify/Apps" store in
  Startup.setting v !! "spotify_path" = Some (Startup.spotifyPath v) ∧
  Startup.setting v !! "prefs_path" = Some (Startup.prefsPath v) ∧
  len (Startup.spotifyPath v) ≠ 0%nat ∧ len (Startup.prefsPath v) ≠ 0%nat ∧
  ∀ k, k ≠ "spotify_path" → k ≠ "prefs_path" →
       Startup.setting v !! k = settingSection w !! k.
Proof.
  apply (InitPaths_store_agrees
           (Sample.host "linux" {[ "spotify_path" := "/opt/spotify" ]})
           "" "/home/u/.config/spotify/prefs" "/cfg" false
           [Startup.cfg_Write {[ "spotify_path" := "/opt/spotify";
                                 "prefs_path" := "/home/u/.config/spotify/prefs" ]}]
           (Startup.mkVars "/opt/spotify" "/home/u/.config/spotify/prefs" false
              "/opt/spotify/Apps" "/opt/spotify/Apps"
              {[ "spotify_path" := "/opt/spotify";
                 "prefs_path" := "/home/u/.config/spotify/prefs" ]})
           (mkFS (list_to_set ["/opt/spotify/Apps"; "/opt/spotify";
                               "/home/u/.config/spotify/prefs"]) ∅ ∅)).
  vm_compute. reflexivity.
Defined.

Lemma InitPaths_saves_only_detected_witness :
  let w := Sample.host "linux" {[ "spotify_path" := "/opt/spotify" ]} in
  let store : gmap string string :=
    {[ "spotify_path" := "/opt/spotify";
       "prefs_path" := "/home/u/.config/spotify/prefs" ]} in
  let v := Startup.mkVars "/opt/spotify" "/home/u/.config/spotify/prefs" false
             "/opt/spotify/Apps" "/opt/spotify/Apps" store in
  [Startup.cfg_Write store] =
    (if (len (ini.Key (settingSection w) "spotify_path") =? 0)%nat
     then [Startup.cfg_Write
             (<["spotify_path" := Startup.spotifyPath v]> (settingSection w))]
     else []) ++
    (if (len (ini.Key (settingSection w) "prefs_path") =? 0)%nat
     then [Startup.cfg_Write (Startup.setting v)] else []).
Proof.
  apply (InitPaths_saves_only_detected
           (Sample.host "linux" {[ "spotify_path" := "/opt/spotify" ]})
           "" "/home/u/.config/spotify/prefs" "/cfg" false
           [Startup.cfg_Write {[ "spotify_path" := "/opt/spotify";
                                 "prefs_path" := "/home/u/.config/spotify/prefs" ]}]
           (Startup.mkVars "/opt/spotify" "/home/u/.config/spotify/prefs" false
              "/opt/spotify/Apps" "/opt/spotify/Apps"
              {[ "spotify_path" := "/opt/spotify";
                 "prefs_path" := "/home/u/.config/spotify/prefs" ]})
           (mkFS (list_to_set ["/opt/spotify/Apps"; "/opt/spotify";
                               "/home/u/.config/spotify/prefs"]) ∅ ∅)).
  vm_compute. reflexivity.
Defined.

Lemma InitPaths_detected_path_saved_before_exit_witness :
  let w := Sample.host "linux" ∅ in
  ∃ msg,
    Startup.InitPaths w "/opt/spotify" "" "/cfg" false =
      ([Startup.cfg_Write (<["spotify_path" := "/opt/spotify"]> (settingSection w));
        Startup.ErrorLine msg],
       Startup.Quit 1).
Proof.
  apply (InitPaths_detected_path_saved_before_exit
           (Sample.host "linux" ∅) "/opt/spotify" "" "/cfg" false).
  - reflexivity.
  - vm_compute. discriminate.
  - intros [[H _]|[_ H]]; vm_compute in H; now apply H.
Defined.

(** [strings.Contains] finds exactly the texts that have the other one
    inside. *)
Lemma prefix_spec (p s : string) :
  String.prefix p s = true ↔ ∃ rest, s = (p ++ rest)%string.
Proof.
  revert s. induction p as [|c p IH]; intros s.
  - split; [intros _; exists s; reflexivity|intros _; now destruct s].
  - destruct s as [|d s]; simpl; [split; [discriminate|intros [r [=]]]|].
    destruct (Ascii.ascii_dec c d) as [->|Hne].
    + rewrite IH. split; intros [r E]; exists r.
      * now rewrite E.
      * simpl in E. now injection E.
    + split; [discriminate|]. intros [r E]. simpl in E. injection E as E _.
      congruence.
Qed.

Lemma Contains_spec (s substr : string) :
  Startup.Contains s substr = true ↔
  ∃ before after, s = (before ++ substr ++ after)%string.
Proof.
  induction s as [|c s IH]; cbn [Startup.Contains].
  - destruct (String.prefix substr "") eqn:P.
    + split; [|reflexivity]. intros _. apply prefix_spec in P as [r E].
      exists "", r. exact E.
    + split; [discriminate|]. intros (b & a & E).
      destruct b; simpl in E; [|discriminate].
      assert (String.prefix substr "" = true) by (apply prefix_spec; eauto).
      congruence.
  - destruct (String.prefix substr (String c s)) eqn:P.
    + split; [|reflexivity]. intros _. apply prefix_spec in P as [r E].
      exists "", r. exact E.
    + rewrite IH. split.
      * intros (b & a & ->). exists (String c b), a. reflexivity.
      * intros (b & a & E). destruct b as [|x b]; simpl in E.
        -- assert (String.prefix substr (String c s) = true)
             by (apply prefix_spec; eauto). congruence.
        -- injection E as _ E. eauto.
Qed.

(** X24. Where the patched apps go.  [appPath] is [Apps] under the
    Spotify path.  On Windows the destination moves to [AppX] under the
    spicetify folder exactly when the Spotify path has
    [SpotifyAB.SpotifyMusic] in it; on any other platform a fresh
    process keeps the destination at [appPath], marker or not. *)
Theorem InitPaths_destination
  (w : World) (FindAppPath FindPrefFilePath spicetifyFolder : string)
  (t : list Startup.Console) (v : Startup.Vars) (disk : FS) :
  Startup.InitPaths w FindAppPath FindPrefFilePath spicetifyFolder false
    = (t, Startup.Finished v disk) →
  Startup.appPath v = Join w [Startup.spotifyPath v; "Apps"] ∧
  (GOOS w = "windows" →
   (∃ before after,
      Startup.spotifyPath v = (before ++ "SpotifyAB.SpotifyMusic" ++ after)%string) →
   Startup.appDestPath v = Join w [spicetifyFolder; "AppX"]) ∧
  (GOOS w ≠ "windows" ∨
   ¬ (∃ before after,
        Startup.spotifyPath v = (before ++ "SpotifyAB.SpotifyMusic" ++ after)%string) →
   Startup.appDestPath v = Startup.appPath v).
Proof.
  unfold Startup.InitPaths.
  match goal with |- context [Startup.locate w (settingSection w) "spotify_path" ?d ?i ?u] =>
    destruct (Startup.locate w (settingSection w) "spotify_path" d i u)
      as [t1 [[sp st1]|]]
  end; [|discriminate].
  match goal with |- context [Startup.locate w st1 "prefs_path" ?d ?i ?u] =>
    destruct (Startup.locate w st1 "prefs_path" d i u) as [t2 [[pp st2]|]]
  end; [|discriminate].
  destruct (CheckExistAndCreate _ _) as [[] disk'|] eqn:C; [|discriminate].
  intros [= <- <- <-]. simpl.
  split; [reflexivity|]. split.
  - intros Hos Hmark. apply Contains_spec in Hmark. rewrite Hos. simpl.
    now rewrite Hmark.
  - intros [Hos|Hno].
    + apply String.eqb_neq in Hos. now rewrite Hos.
    + destruct (String.eqb (GOOS w) "windows"); [|reflexivity].
      destruct (Startup.Contains sp "SpotifyAB.SpotifyMusic") eqn:Cn; [|reflexivity].
      exfalso. apply Hno. now apply Contains_spec.
Qed.

Lemma InitPaths_destination_witness :
  let w := Sample.host "linux" {[ "spotify_path" := "/opt/spotify" ]} in
  let v := Startup.mkVars "/opt/spotify" "/home/u/.config/spotify/prefs" false
             "/opt/spotify/Apps" "/opt/spotify/Apps"
             {[ "spotify_path" := "/opt/spotify";
                "prefs_path" := "/home/u/.config/spotify/prefs" ]} in
  Startup.appPath v = Join w [Startup.spotifyPath v; "Apps"] ∧
  (GOOS w = "windows" →
   (∃ before after,
      Startup.spotifyPath v = (before ++ "SpotifyAB.SpotifyMusic" ++ after)%string) →
   Startup.appDestPath v = Join w ["/cfg"; "AppX"]) ∧
  (GOOS w ≠ "windows" ∨
   ¬ (∃ before after,
        Startup.spotifyPath v = (before ++ "SpotifyAB.SpotifyMusic" ++ after)%string) →
   Startup.appDestPath v = Startup.appPath v).
Proof.
  apply (InitPaths_destination
           (Sample.host "linux" {[ "spotify_path" := "/opt/spotify" ]})
           "" "/home/u/.config/spotify/prefs" "/cfg"
           [Startup.cfg_Write {[ "spotify_path" := "/opt/spotify";
                                 "prefs_path" := "/home/u/.config/spotify/prefs" ]}]
           (Startup.mkVars "/opt/spotify" "/home/u/.config/spotify/prefs" false
              "/opt/spotify/Apps" "/opt/spotify/Apps"
              {[ "spotify_path" := "/opt/spotify";
                 "prefs_path" := "/home/u/.config/spotify/prefs" ]})
           (mkFS (list_to_set ["/opt/spotify/Apps"; "/opt/spotify";
                               "/home/u/.config/spotify/prefs"]) ∅ ∅)).
  vm_compute. reflexivity.
Defined.

(** ** [ReadAnswer] *)

Lemma append_empty (s : string) : (s ++ "")%string = s.
Proof.
  induction s as [|c s IH]; [reflexivity|].
  change (String c (s ++ "") = String c s). now f_equal.
Qed.

Lemma removeFirst_absent (c : ascii) (s : string) :
  occurs c s = false → Startup.removeFirst c s = s.
Proof.
  induction s as [|x s IH]; simpl; [reflexivity|].
  intros H. apply orb_false_iff in H as [Hx Hs]. rewrite Hx. now rewrite IH.
Qed.

Lemma removeFirst_at_end (c : ascii) (s rest : string) :
  occurs c s = false →
  Startup.removeFirst c (s ++ String c rest) = (s ++ rest)%string.
Proof.
  induction s as [|x s IH]; simpl.
  - intros _. now rewrite Ascii.eqb_refl.
  - intros H. apply orb_false_iff in H as [Hx Hs]. rewrite Hx. now rewrite IH.
Qed.

Lemma occurs_append (c : ascii) (s r : string) :
  occurs c (s ++ r) = occurs c s || occurs c r.
Proof.
  induction s as [|x s IH]; simpl; [reflexivity|]. now rewrite IH, orb_assoc.
Qed.

(** X25. The answer does not depend on how the line ends: a text with
    no line break in it is read the same whether the console delivers it
    with a line feed, with carriage return and line feed, or bare at the
    end of the input. *)
Theorem answer_ignores_line_ending (text : string) (defaultAnswer : bool) :
  occurs Startup.CR text = false →
  occurs Startup.LF text = false →
  Startup.answer (text ++ String Startup.LF "") defaultAnswer
    = Startup.answer text defaultAnswer ∧
  Startup.answer (text ++ String Startup.CR (String Startup.LF "")) defaultAnswer
    = Startup.answer text defaultAnswer.
Proof.
  intros Hcr Hlf. unfold Startup.answer.
  rewrite (removeFirst_absent Startup.CR text Hcr).
  rewrite (removeFirst_absent Startup.LF text Hlf).
  rewrite (removeFirst_at_end Startup.CR text _ Hcr).
  assert (E : Startup.removeFirst Startup.CR (text ++ String Startup.LF "")
              = (text ++ String Startup.LF "")%string).
  { apply removeFirst_absent. rewrite occurs_append, Hcr. reflexivity. }
  rewrite E, (removeFirst_at_end Startup.LF text "" Hlf), append_empty.
  split; reflexivity.
Qed.

Lemma answer_ignores_line_ending_witness :
  Startup.answer ("Y" ++ String Startup.LF "") false = Startup.answer "Y" false ∧
  Startup.answer ("Y" ++ String Startup.CR (String Startup.LF "")) false
    = Startup.answer "Y" false.
Proof.
  apply (answer_ignores_line_ending "Y" false); reflexivity.
Defined.


Lemma ReadString_shorter (text : string) (stdin : list string) :
  (length (snd (Startup.ReadString text stdin)) ≤ pred (length stdin))%nat.
Proof.
  revert text. induction stdin as [|chunk rest IH]; intros text; simpl; [lia|].
  destruct (occurs Startup.LF chunk); simpl; [lia|].
  specialize (IH (text ++ chunk)%string). lia.
Qed.

(** The calls allowed beyond the length of the input are never made. *)
Lemma ReadAnswerN_enough (quiet : bool) (info : string)
      (defaultAnswer quietModeAnswer : bool) (n m : nat) (stdin : list string) :
  (length stdin < n)%nat → (length stdin < m)%nat →
  Startup.ReadAnswerN n quiet info defaultAnswer quietModeAnswer stdin
    = Startup.ReadAnswerN m quiet info defaultAnswer quietModeAnswer stdin.
Proof.
  revert m stdin. induction n as [|n IH]; intros m stdin Hn Hm; [lia|].
  destruct m as [|m]; [lia|]. simpl.
  destruct quiet; [reflexivity|].
  pose proof (ReadString_shorter "" stdin) as Hlen.
  destruct (Startup.ReadString "" stdin) as [text unread] eqn:R.
  destruct (Startup.answer text defaultAnswer) as [b|] eqn:A; [reflexivity|].
  destruct stdin as [|chunk rest].
  - simpl in R. injection R as <- <-. discriminate A.
  - simpl in Hlen, Hn, Hm. rewrite (IH m unread); [reflexivity|lia|lia].
Qed.

(** [ReadAnswer] satisfies the equation of the source: it prints, reads
    a line with a reader of its own, and calls itself on what no reader
    has read when the line is no answer. *)
Lemma ReadAnswer_unfold (info : string) (defaultAnswer quietModeAnswer : bool)
      (stdin : list string) :
  Startup.ReadAnswer false info defaultAnswer quietModeAnswer stdin
    = let '(text, unread) := Startup.ReadString "" stdin in
      match Startup.answer text defaultAnswer with
      | Some b => ([Startup.Printed info], b, unread)
      | None =>
          let '(t, b, unread) :=
            Startup.ReadAnswer false info defaultAnswer quietModeAnswer unread in
          (Startup.Printed info :: t, b, unread)
      end.
Proof.
  unfold Startup.ReadAnswer. simpl.
  pose proof (ReadString_shorter "" stdin) as Hlen.
  destruct (Startup.ReadString "" stdin) as [text unread] eqn:R.
  destruct (Startup.answer text defaultAnswer) as [b|] eqn:A; [reflexivity|].
  destruct stdin as [|chunk rest].
  - simpl in R. injection R as <- <-. discriminate A.
  - simpl in Hlen.
    rewrite (ReadAnswerN_enough false info defaultAnswer quietModeAnswer
               (length (chunk :: rest)) (S (length unread)) unread);
      [reflexivity|simpl; lia|lia].
Qed.








(** X28. What the console delivers in one chunk behind a line feed is
    never read: the reader that holds it is dropped with the call, and
    the next call reads from the console again.  A line that is not
    understood, sent in one write with anything behind it and nothing
    after, ends with the default answer. *)
Theorem ReadAnswer_drops_what_was_buffered
  (info : string) (defaultAnswer quietModeAnswer : bool) (text more : string) :
  occurs Startup.LF text = false →
  Startup.answer (text ++ String Startup.LF "") defaultAnswer = None →
  Startup.ReadAnswer false info defaultAnswer quietModeAnswer
    [(text ++ String Startup.LF more)%string]
    = ([Startup.Printed info; Startup.Printed info], defaultAnswer, []).
Proof.
  intros Hlf Hno.
  assert (Hthrough : through Startup.LF (text ++ String Startup.LF more)
                     = (text ++ String Startup.LF "")%string).
  { clear Hno. induction text as [|x text IH]; [reflexivity|].
    simpl in Hlf. apply orb_false_iff in Hlf as [Hx Hlf].
    change (through Startup.LF (String x (text ++ String Startup.LF more))
            = String x (text ++ String Startup.LF "")).
    simpl. rewrite Hx. f_equal. now apply IH. }
  assert (Hhit : occurs Startup.LF (text ++ String Startup.LF more) = true).
  { rewrite occurs_append.
    change (occurs Startup.LF (String Startup.LF more)) with true.
    apply orb_true_r. }
  rewrite ReadAnswer_unfold. simpl. rewrite Hhit, Hthrough.
  change ("" ++ (text ++ String Startup.LF ""))%string
    with (text ++ String Startup.LF "")%string.
  rewrite Hno. reflexivity.
Qed.

Lemma ReadAnswer_drops_what_was_buffered_witness :
  Startup.ReadAnswer false "Continue? [y/N] " false true
    [("maybe" ++ String Startup.LF ("y" ++ String Startup.LF ""))%string]
    = ([Startup.Printed "Continue? [y/N] "; Startup.Printed "Continue? [y/N] "],
       false, []).
Proof.
  apply (ReadAnswer_drops_what_was_buffered "Continue? [y/N] " false true "maybe"
           ("y" ++ String Startup.LF "")%string); reflexivity.
Defined.
